(** * Tanjun permission utilities: a shallow embedding of [tanjun/utilities.py]

    The first part translates the module: the two private resolvers
    [_calculate_channel_overwrites] and [_calculate_role_permissions], the
    constant [ALL_PERMISSIONS], [calculate_permissions], the retry helper
    [fetch_resource] and [fetch_permissions].  The second part states and
    proves what the specification says about them.

    Conventions.
    - [hikari.Permissions] is an integer flag enum; a value is a [Z], which
      may carry bits that no member of the enum defines, and the operators
      [&], [|], [^] are those of Python integers ([Z.land], [Z.lor],
      [Z.lxor]).  The operator [~] is hikari's: it complements within the
      bits of the enum's members ([invert] below).
    - A [hikari.Snowflake] is an integer, here a [Z].
    - A Python mapping is a [gmap]; [m.get(k)] and [m[k]] are both [m !! k],
      the latter raising [KeyError] on [None].
    - The hikari objects (overwrites, roles, guilds, channels) define no
      truth value of their own, so [if x] on an optional object only tests
      for [None].
    - A raised exception is the [Raised] constructor of [result].
    - A coroutine is a function of the state it runs in (the remote
      authority and the trace of what was awaited) that returns its result
      with the state it leaves; a retry duration is a rational. *)

From Stdlib Require Import ZArith QArith List Bool String Lia.
From stdpp Require Import base option list gmap.
From Equations Require Import Equations.
From Equations.Prop Require Import Logic.
Import ListNotations.

Local Open Scope Z_scope.

(** ** Exceptions and results *)

Inductive exn : Type :=
| ValueError (msg : string)
| KeyError (key : Z)
| AssertionError (msg : string)
| RateLimitedError (retry_after : Q)        (* hikari.RateLimitedError *)
| RateLimitTooLongError (retry_after : Q)   (* hikari.RateLimitTooLongError *)
| InternalServerError                       (* hikari.InternalServerError *)
| OtherError (tag : nat).                   (* any exception no handler names *)

Inductive result (A : Type) : Type :=
| Returned (value : A)
| Raised (exc : exn).
Arguments Returned {A} value.
Arguments Raised {A} exc.

(** ** Permission bitmasks *)

Definition Permissions : Type := Z.

(** [hikari.Permissions.NONE] *)
Definition NONE : Permissions := 0.

(** [functools.reduce(function, iterable)] without an initial value: the
    first element seeds the accumulator, an empty iterable raises. *)
Definition reduce {A : Type} (function : A -> A -> A) (iterable : list A) : option A :=
  match iterable with
  | [] => None
  | first :: rest => Some (fold_left function rest first)
  end.

(** ** The hikari entities the module reads *)

Module Role.
Record t : Type := { id : Z; permissions : Permissions }.
End Role.

Module User.
Record t : Type := { id : Z }.
End User.

Module Member.
Record t : Type := { user : User.t; guild_id : Z; role_ids : list Z }.
End Member.

Module Guild.
Record t : Type := { id : Z; owner_id : Z; roles : gmap Z Role.t }.
End Guild.

Module PermissionOverwrite.
Record t : Type := { allow : Permissions; deny : Permissions }.
End PermissionOverwrite.

Module GuildChannel.
Record t : Type :=
  { id : Z;
    guild_id : Z;
    permission_overwrites : gmap Z PermissionOverwrite.t }.
End GuildChannel.

(** ** The complement of a flag *)

(** [hikari.Permissions.__everything__]: the union of the members of the
    enum, that is, the bits the linked version of hikari knows.  hikari is
    a dependency of the module; the members of its enum are a parameter. *)
Definition everything (Permissions_members : list Permissions) : Permissions :=
  fold_right Z.lor NONE Permissions_members.

(** [~value] on a [hikari.Permissions]: the members of the enum that
    [value] lacks, [__everything__ & ~value] on the integers. *)
Definition invert (Permissions_members : list Permissions) (value : Permissions)
    : Permissions :=
  Z.land (everything Permissions_members) (Z.lnot value).

(** ** [_calculate_channel_overwrites] *)

Definition _calculate_channel_overwrites
    (Permissions_members : list Permissions)
    (channel : GuildChannel.t) (member : Member.t) (permissions : Permissions)
    : Permissions :=
  let invert := invert Permissions_members in
  let overwrites := GuildChannel.permission_overwrites channel in
  let permissions :=
    match overwrites !! Member.guild_id member with
    | Some everyone_overwrite =>
        let permissions :=
          Z.land permissions (invert (PermissionOverwrite.deny everyone_overwrite)) in
        Z.lor permissions (PermissionOverwrite.allow everyone_overwrite)
    | None => permissions
    end in
  let '(deny, allow) :=
    fold_left
      (fun '(deny, allow) overwrite =>
         (Z.lor deny (PermissionOverwrite.deny overwrite),
          Z.lor allow (PermissionOverwrite.allow overwrite)))
      (omap (fun role_id => overwrites !! role_id) (Member.role_ids member))
      (NONE, NONE) in
  let permissions := Z.land permissions (invert deny) in
  let permissions := Z.lor permissions allow in
  match overwrites !! User.id (Member.user member) with
  | Some member_overwrite =>
      let permissions :=
        Z.land permissions (invert (PermissionOverwrite.deny member_overwrite)) in
      Z.lor permissions (PermissionOverwrite.allow member_overwrite)
  | None => permissions
  end.

(** ** [_calculate_role_permissions] *)

Definition _calculate_role_permissions
    (roles : gmap Z Role.t) (member : Member.t) : result Permissions :=
  match roles !! Member.guild_id member with
  | None => Raised (KeyError (Member.guild_id member))
  | Some everyone =>
      Returned
        (fold_left
           (fun permissions role_id =>
              match roles !! role_id with
              | Some role =>
                  if negb (Role.id role =? Member.guild_id member)
                  then Z.lor permissions (Role.permissions role)
                  else permissions
              | None => permissions
              end)
           (Member.role_ids member)
           (Role.permissions everyone))
  end.

Section Calculator.

(** The members of the [hikari.Permissions] enum in iteration order, and
    its [ADMINISTRATOR] member.  hikari is a dependency of the module, so
    both are left open. *)
Variable Permissions_members : list Permissions.
Variable ADMINISTRATOR : Permissions.

(** [ALL_PERMISSIONS = functools.reduce(operator.__xor__, hikari.Permissions)].
    The constant is evaluated once when the module is imported; with an
    empty enum the import itself fails and nothing below is ever called,
    which is why the functions read the value through [default]. *)
Definition ALL_PERMISSIONS : Permissions :=
  default NONE (reduce Z.lxor Permissions_members).

(** ** [calculate_permissions] *)

Definition calculate_permissions
    (member : Member.t) (guild : Guild.t) (roles : gmap Z Role.t)
    (channel : option GuildChannel.t) : result Permissions :=
  if negb (Member.guild_id member =? Guild.id guild) then
    Raised (ValueError "Member object isn't from the provided guild")
  else if Guild.owner_id guild =? User.id (Member.user member) then
    Returned ALL_PERMISSIONS
  else
    match _calculate_role_permissions roles member with
    | Raised exc => Raised exc
    | Returned permissions =>
        if negb (Z.land permissions ADMINISTRATOR =? 0) then
          Returned ALL_PERMISSIONS
        else
          match channel with
          | None => Returned permissions
          | Some channel =>
              Returned (_calculate_channel_overwrites Permissions_members
                          channel member permissions)
          end
    end.

End Calculator.

(** ** The retry iterator *)

Module Backoff.

(** Modelled from the spec: [yuyo.backoff.Backoff] is a dependency whose
    source is not part of the module.  The spec describes it as a driver
    that "maintains an internal attempt counter bounded by a configured
    maximum retry count and a maximum single-wait duration"; the object
    also remembers whether its first iteration was handed out and the wait
    recorded for the next one. *)
Record t : Type := mk
  { maximum : Q;
    max_retries : nat;
    started : bool;
    retries : nat;
    next_backoff : option Q }.

(** Modelled from the spec: [Backoff(maximum=..., max_retries=...)], a
    fresh iterator. *)
Definition new (maximum : Q) (max_retries : nat) : t :=
  mk maximum max_retries false 0 None.

(** Modelled from the spec: [Backoff.reset] puts the attempt counter, the
    recorded wait and the first-iteration mark back to their initial
    values and keeps the configuration. *)
Definition reset (retry : t) : t :=
  mk (maximum retry) (max_retries retry) false 0 None.

(** Modelled from the spec: [Backoff.set_next_backoff] "record[s] the
    suggested duration as the next wait". *)
Definition set_next_backoff (backoff_ : Q) (retry : t) : t :=
  mk (maximum retry) (max_retries retry) (started retry) (retries retry)
     (Some backoff_).

(** Modelled from the spec: the retry budget is exhausted once
    [max_retries] retries were handed out. *)
Definition is_depleted (retry : t) : bool :=
  (max_retries retry <=? retries retry)%nat.

(** One [__anext__] of the asynchronous iterator either ends the
    iteration or lets the loop body run, after having slept or not. *)
Inductive step : Type :=
| StopAsyncIteration
| Continue (slept : option Q).

(** Modelled from the spec: one step of [async for _ in retry].  The first
    iteration after a reset runs at once.  Every later iteration is a
    retry: it is refused once [max_retries] retries were handed out,
    otherwise it is counted and "suspends for that duration before the
    next attempt", the duration being the recorded wait when there is
    one and the iterator's own schedule [exponential] otherwise. *)
Definition anext (exponential : nat -> Q) (retry : t) : step * t :=
  if negb (started retry) then
    (Continue None,
     mk (maximum retry) (max_retries retry) true (retries retry)
        (next_backoff retry))
  else if is_depleted retry then
    (StopAsyncIteration, retry)
  else
    (Continue
       (Some (match next_backoff retry with
              | Some backoff_ => backoff_
              | None => exponential (retries retry)
              end)),
     mk (maximum retry) (max_retries retry) true (S (retries retry)) None).

(** The number of loop iterations the iterator can still hand out. *)
Definition budget (retry : t) : nat :=
  ((if started retry then 0 else 1) + (max_retries retry - retries retry))%nat.

End Backoff.

(** ** The remote authority, the clock and [fetch_resource] *)

(** What a run does that an observer can see: awaiting the wrapped call
    and sleeping. *)
Inductive event : Type :=
| Invoked
| Slept (duration : Q).

Section Remote.

(** The state of the remote authority: a call reads and changes it. *)
Context {W : Type}.

(** The wait the iterator picks when none was recorded, by the number of
    retries handed out so far. *)
Variable exponential : nat -> Q.

Record state : Type := { remote : W; trace : list event }.

(** [await call( *args )] *)
Definition await {R : Type} (call : W -> result R * W) (st : state)
    : result R * state :=
  let '(outcome, remote') := call (remote st) in
  (outcome, {| remote := remote'; trace := trace st ++ [Invoked] |}).

(** [await asyncio.sleep(backoff_)] inside the iterator *)
Definition sleep (slept : option Q) (st : state) : state :=
  match slept with
  | Some duration =>
      {| remote := remote st; trace := trace st ++ [Slept duration] |}
  | None => st
  end.

(** The [async for ... else] loop of [fetch_resource], from the iterator
    state [retry] onwards. *)
Equations? fetch_resource_loop {R : Type}
    (call : W -> result R * W) (retry : Backoff.t) (st : state)
    : result R * Backoff.t * state by wf (Backoff.budget retry) lt :=
  fetch_resource_loop call retry st with inspect (Backoff.anext exponential retry) := {
    | exist _ (Backoff.StopAsyncIteration, retry') _ :=
        (* else: return await call( *args ) *)
        let '(outcome, st') := await call st in (outcome, retry', st')
    | exist _ (Backoff.Continue slept, retry') _ :=
        match await call (sleep slept st) with
        | (Returned value, st') => (Returned value, retry', st')
        | (Raised (RateLimitedError retry_after as exc), st')
        | (Raised (RateLimitTooLongError retry_after as exc), st') =>
            if negb (Qle_bool retry_after 5) then (Raised exc, retry', st')
            else fetch_resource_loop call
                   (Backoff.set_next_backoff retry_after retry') st'
        | (Raised InternalServerError, st') =>
            fetch_resource_loop call retry' st'
        | (Raised exc, st') => (Raised exc, retry', st')
        end }.
Proof.
  all: clear - e; unfold Backoff.anext, Backoff.is_depleted in e;
    destruct retry as [? n [|] r ?]; cbn in *;
    [ destruct (n <=? r)%nat eqn:E; [discriminate|]; apply Nat.leb_gt in E
    | ];
    injection e as _ <-; unfold Backoff.budget; cbn; lia.
Qed.

(** [fetch_resource(retry, call, *args)] *)
Definition fetch_resource {R : Type}
    (retry : Backoff.t) (call : W -> result R * W) (st : state)
    : result R * Backoff.t * state :=
  fetch_resource_loop call (Backoff.reset retry) st.

End Remote.

(** ** The collaborators of [fetch_permissions] *)

Module Cache.
(** [get_roles_view_for_guild] returns a view that is empty when the cache
    holds nothing for the guild; an empty view and [None] are both falsy,
    so one empty map stands for both. *)
Record t : Type :=
  { get_guild : Z -> option Guild.t;
    get_roles_view_for_guild : Z -> gmap Z Role.t;
    get_guild_channel : Z -> option GuildChannel.t }.
End Cache.

(** What [client.rest.fetch_channel] resolves to: a guild channel, or a
    channel of another kind (a DM channel). *)
Inductive PartialChannel : Type :=
| IsGuildChannel (channel : GuildChannel.t)
| IsDMChannel (id : Z).

Module Rest.
Record t (W : Type) : Type :=
  { fetch_guild : Z -> W -> result Guild.t * W;
    fetch_roles : Z -> W -> result (list Role.t) * W;
    fetch_channel : Z -> W -> result PartialChannel * W }.
Arguments fetch_guild {W} _ _ _.
Arguments fetch_roles {W} _ _ _.
Arguments fetch_channel {W} _ _ _.
End Rest.

Module Client.
Record t (W : Type) : Type :=
  { cache : option Cache.t; rest : Rest.t W }.
Arguments cache {W} _.
Arguments rest {W} _.
End Client.

(** The [channel] argument of [fetch_permissions], a
    [SnowflakeishOr[PartialChannel]]. *)
Inductive channel_ref : Type :=
| GuildChannelObject (channel : GuildChannel.t)
| PartialChannelObject (id : Z)
| Snowflakeish (id : Z).

(** Python truthiness of the argument: objects are truthy, an integer is
    truthy unless it is zero. *)
Definition channel_ref_truthy (channel : channel_ref) : bool :=
  match channel with
  | GuildChannelObject _ | PartialChannelObject _ => true
  | Snowflakeish id => negb (id =? 0)
  end.

(** [hikari.Snowflake(channel)] *)
Definition channel_ref_id (channel : channel_ref) : Z :=
  match channel with
  | GuildChannelObject channel => GuildChannel.id channel
  | PartialChannelObject id | Snowflakeish id => id
  end.

(** Python truthiness of an optional mapping: [None] and the empty mapping
    are falsy. *)
Definition mapping_truthy {V : Type} (mapping : option (gmap Z V)) : bool :=
  match mapping with
  | Some mapping => negb (bool_decide (mapping = ∅))
  | None => false
  end.

(** [{role.id: role for role in raw_roles}] *)
Definition roles_by_id (raw_roles : list Role.t) : gmap Z Role.t :=
  fold_left (fun roles role => <[Role.id role := role]> roles) raw_roles ∅.

Section Orchestrator.

Context {W : Type}.
Variable exponential : nat -> Q.
Variable Permissions_members : list Permissions.
Variable ADMINISTRATOR : Permissions.

(** Sequencing of a step that may have used the retry object with the
    rest of the coroutine; an exception ends the coroutine. *)
Definition and_then {A B : Type}
    (step : result A * Backoff.t * @state W)
    (rest : A -> Backoff.t -> @state W -> result B * @state W)
    : result B * @state W :=
  match step with
  | (Returned value, retry, st) => rest value retry st
  | (Raised exc, _, st) => (Raised exc, st)
  end.

(** ** [fetch_permissions] *)

Definition fetch_permissions
    (client : Client.t W) (member : Member.t) (channel : option channel_ref)
    (st : @state W) : result Permissions * @state W :=
  let retry := Backoff.new 5 4 in
  let guild :=
    match Client.cache client with
    | Some cache => Cache.get_guild cache (Member.guild_id member)
    | None => None
    end in
  and_then
    match guild with
    | Some guild => (Returned (guild, None), retry, st)
    | None =>
        match fetch_resource exponential retry
                (Rest.fetch_guild (Client.rest client) (Member.guild_id member))
                st with
        | (Returned guild, retry, st) =>
            (Returned (guild, Some (Guild.roles guild)), retry, st)
        | (Raised exc, retry, st) => (Raised exc, retry, st)
        end
    end
    (fun '(guild, roles) retry st =>
  (* Guild owners are implicitly admins. *)
  if Guild.owner_id guild =? User.id (Member.user member) then
    (Returned (ALL_PERMISSIONS Permissions_members), st)
  else
  let roles :=
    if mapping_truthy roles then roles
    else
      match Client.cache client with
      | Some cache =>
          Some (Cache.get_roles_view_for_guild cache (Member.guild_id member))
      | None => None
      end in
  let raw_roles :=
    match fetch_resource exponential retry
            (Rest.fetch_roles (Client.rest client) (Member.guild_id member))
            st with
    | (Returned raw_roles, retry, st) =>
        (Returned (roles_by_id raw_roles), retry, st)
    | (Raised exc, retry, st) => (Raised exc, retry, st)
    end in
  and_then
    match roles with
    | Some roles' =>
        if mapping_truthy roles then (Returned roles', retry, st) else raw_roles
    | None => raw_roles
    end
    (fun roles retry st =>
  (* Admin permission overrides all overwrites. *)
  match _calculate_role_permissions roles member with
  | Raised exc => (Raised exc, st)
  | Returned permissions =>
  if negb (Z.land permissions ADMINISTRATOR =? 0) then
    (Returned (ALL_PERMISSIONS Permissions_members), st)
  else
  match channel with
  | None => (Returned permissions, st)
  | Some channel =>
  if negb (channel_ref_truthy channel) then (Returned permissions, st)
  else
  let found_channel :=
    match channel with
    | GuildChannelObject channel => Some channel
    | _ =>
        match Client.cache client with
        | Some cache => Cache.get_guild_channel cache (channel_ref_id channel)
        | None => None
        end
    end in
  and_then
    match found_channel with
    | Some found_channel => (Returned found_channel, retry, st)
    | None =>
        match fetch_resource exponential retry
                (Rest.fetch_channel (Client.rest client) (channel_ref_id channel))
                st with
        | (Returned (IsGuildChannel raw_channel), retry, st) =>
            (Returned raw_channel, retry, st)
        | (Returned (IsDMChannel _), retry, st) =>
            (Raised (AssertionError "Cannot perform operation on a DM channel."),
             retry, st)
        | (Raised exc, retry, st) => (Raised exc, retry, st)
        end
    end
    (fun found_channel _ st =>
  if negb (GuildChannel.guild_id found_channel =? Guild.id guild) then
    (Raised (ValueError "Channel doesn't match up with the member's guild"), st)
  else
    (Returned (_calculate_channel_overwrites Permissions_members
                 found_channel member permissions),
     st))
  end
  end)).

End Orchestrator.

(** ** [async_chain] *)

(** What one [__anext__] of an asynchronous iterator gives: the iterator is
    exhausted, it raises, or it yields a value and is ready to be pulled
    again.  Every case carries the remote state the pull leaves, and the
    rest of the iterator resumes in the state it is pulled in next. *)
Inductive pull (W A : Type) : Type :=
| Exhausted (w : W)
| Failed (exc : exn) (w : W)
| Yielded (value : A) (w : W) (rest : W -> pull W A).
Arguments Exhausted {W A} w.
Arguments Failed {W A} exc w.
Arguments Yielded {W A} value w rest.

(** [async for value in async_iterable: yield value], then the rest of the
    outer loop. *)
Fixpoint chain_into {W A : Type}
    (async_iterable : pull W A) (remaining : W -> pull W A) : pull W A :=
  match async_iterable with
  | Exhausted w => remaining w
  | Failed exc w => Failed exc w
  | Yielded value w rest =>
      Yielded value w (fun w' => chain_into (rest w') remaining)
  end.

(** [async_chain(iterable)]: an asynchronous iterable is started by the
    pull that reaches it. *)
Fixpoint async_chain {W A : Type}
    (iterable : list (W -> pull W A)) (w : W) : pull W A :=
  match iterable with
  | [] => Exhausted w
  | async_iterable :: iterable =>
      chain_into (async_iterable w) (async_chain iterable)
  end.

(** ** Vocabulary of the specification

    The definitions below follow the words of the specification, not the
    code; the theorems compare them with the functions above. *)

(** [combine(a, b)]: union. *)
Definition combine (a b : Permissions) : Permissions := Z.lor a b.

(** [remove(a, b)]: [a] with the bits of [b] cleared. *)
Definition remove (a b : Permissions) : Permissions := Z.land a (Z.lnot b).

(** The combination of a family of permission sets. *)
Definition combine_all (family : list Permissions) : Permissions :=
  fold_right combine NONE family.

(** A flag universe is disjoint when no two members share a bit. *)
Fixpoint flags_disjoint (flags : list Permissions) : bool :=
  match flags with
  | [] => true
  | flag :: rest =>
      forallb (fun other => Z.land flag other =? 0) rest && flags_disjoint rest
  end.

(** One overwrite layer, "deny-then-allow": remove the denied bits, then
    add the allowed bits. *)
Definition apply_layer (deny allow : Permissions) (permissions : Permissions)
    : Permissions :=
  combine (remove permissions deny) allow.

(** A layer keyed by a single subject: absent, it is skipped. *)
Definition apply_overwrite
    (overwrite : option PermissionOverwrite.t) (permissions : Permissions)
    : Permissions :=
  match overwrite with
  | Some overwrite =>
      apply_layer (PermissionOverwrite.deny overwrite)
                  (PermissionOverwrite.allow overwrite) permissions
  | None => permissions
  end.

(** A layer as the code applies it: of the permissions below it keeps the
    known flags, removes the denied bits from them, then adds the allowed
    bits. *)
Definition apply_known_layer (known deny allow : Permissions)
    (permissions : Permissions) : Permissions :=
  combine (remove (Z.land permissions known) deny) allow.

(** The same for a layer keyed by a single subject: absent, it is
    skipped and unknown flags pass. *)
Definition apply_known_overwrite (known : Permissions)
    (overwrite : option PermissionOverwrite.t) (permissions : Permissions)
    : Permissions :=
  match overwrite with
  | Some overwrite =>
      apply_known_layer known (PermissionOverwrite.deny overwrite)
        (PermissionOverwrite.allow overwrite) permissions
  | None => permissions
  end.

(** The overwrites of a channel keyed by a role id the member holds. *)
Definition held_role_overwrites
    (channel : GuildChannel.t) (member : Member.t) : list PermissionOverwrite.t :=
  omap (fun role_id => GuildChannel.permission_overwrites channel !! role_id)
       (Member.role_ids member).

(** The three layers in the words of the specification: everyone, roles,
    member, each removing its denied bits and nothing else before adding
    its allowed bits. *)
Definition overwrite_layers
    (channel : GuildChannel.t) (member : Member.t) (permissions : Permissions)
    : Permissions :=
  let overwrites := GuildChannel.permission_overwrites channel in
  apply_overwrite (overwrites !! User.id (Member.user member))
    (apply_layer
       (combine_all (map PermissionOverwrite.deny (held_role_overwrites channel member)))
       (combine_all (map PermissionOverwrite.allow (held_role_overwrites channel member)))
       (apply_overwrite (overwrites !! Member.guild_id member) permissions)).

(** The roles of the mapping that the member holds, the everyone-role left
    out. *)
Definition held_roles (roles : gmap Z Role.t) (member : Member.t) : list Role.t :=
  filter (fun role => Role.id role <> Member.guild_id member)
         (omap (fun role_id => roles !! role_id) (Member.role_ids member)).

(** The guild the cache resolves for the member, if any: the first step of
    [fetch_permissions]. *)
Definition cached_guild {W : Type} (client : Client.t W) (member : Member.t)
    : option Guild.t :=
  match Client.cache client with
  | Some cache => Cache.get_guild cache (Member.guild_id member)
  | None => None
  end.

(** ** Sample data

    A flag universe laid out as Discord documents it (one bit per flag,
    [NONE] first), used to run the functions on concrete inputs. *)

Definition sample_flags : list Permissions :=
  NONE :: map (fun bit => Z.shiftl 1 (Z.of_nat bit)) (seq 0 32).

Definition sample_ADMINISTRATOR : Permissions := Z.shiftl 1 3.
Definition sample_VIEW_CHANNEL : Permissions := Z.shiftl 1 10.
Definition sample_SEND_MESSAGES : Permissions := Z.shiftl 1 11.

Definition sample_member : Member.t :=
  {| Member.user := {| User.id := 10 |};
     Member.guild_id := 1;
     Member.role_ids := [1; 5] |}.

Definition sample_guild : Guild.t :=
  {| Guild.id := 1; Guild.owner_id := 99; Guild.roles := ∅ |}.

Definition sample_owned_guild : Guild.t :=
  {| Guild.id := 1; Guild.owner_id := 10; Guild.roles := ∅ |}.

Definition sample_roles : gmap Z Role.t :=
  {[ 1 := {| Role.id := 1; Role.permissions := sample_VIEW_CHANNEL |};
     5 := {| Role.id := 5; Role.permissions := sample_SEND_MESSAGES |} ]}.

Definition sample_admin_roles : gmap Z Role.t :=
  {[ 1 := {| Role.id := 1; Role.permissions := sample_VIEW_CHANNEL |};
     5 := {| Role.id := 5; Role.permissions := sample_ADMINISTRATOR |} ]}.

(** A channel of guild [1] that denies [SEND] to everyone, allows it to
    role [5] and denies it to user [10]. *)
Definition sample_channel : GuildChannel.t :=
  {| GuildChannel.id := 7;
     GuildChannel.guild_id := 1;
     GuildChannel.permission_overwrites :=
       {[ 1 := {| PermissionOverwrite.allow := NONE;
                  PermissionOverwrite.deny := sample_SEND_MESSAGES |};
          5 := {| PermissionOverwrite.allow := sample_SEND_MESSAGES;
                  PermissionOverwrite.deny := NONE |};
          10 := {| PermissionOverwrite.allow := NONE;
                   PermissionOverwrite.deny := sample_SEND_MESSAGES |} ]} |}.

(** A channel of another guild, [2], without overwrites. *)
Definition sample_foreign_channel : GuildChannel.t :=
  {| GuildChannel.id := 8;
     GuildChannel.guild_id := 2;
     GuildChannel.permission_overwrites := ∅ |}.

(** A channel of guild [1] that denies every permission to user [10]. *)
Definition sample_deny_all_channel : GuildChannel.t :=
  {| GuildChannel.id := 9;
     GuildChannel.guild_id := 1;
     GuildChannel.permission_overwrites :=
       {[ 10 := {| PermissionOverwrite.allow := NONE;
                   PermissionOverwrite.deny := ALL_PERMISSIONS sample_flags |} ]} |}.

(** A role mapping without the everyone-role of guild [1]. *)
Definition sample_roles_without_everyone : gmap Z Role.t :=
  {[ 5 := {| Role.id := 5; Role.permissions := sample_SEND_MESSAGES |} ]}.

(** A cache that knows one guild and its roles, and no channel. *)
Definition sample_cache (guild : Guild.t) (roles : gmap Z Role.t) : Cache.t :=
  {| Cache.get_guild := fun _ => Some guild;
     Cache.get_roles_view_for_guild := fun _ => roles;
     Cache.get_guild_channel := fun _ => None |}.

(** ** Observing a run of [fetch_resource] *)

(** The suggested wait of a rate-limited failure. *)
Definition rate_limit (exc : exn) : option Q :=
  match exc with
  | RateLimitedError retry_after | RateLimitTooLongError retry_after =>
      Some retry_after
  | _ => None
  end.

(** The outcomes the loop absorbs: a transient-server failure and a
    rate-limited failure whose suggested wait is within the ceiling. *)
Definition retryable {R : Type} (outcome : result R) : bool :=
  match outcome with
  | Raised InternalServerError => true
  | Raised exc =>
      match rate_limit exc with
      | Some retry_after => Qle_bool retry_after 5
      | None => false
      end
  | Returned _ => false
  end.

(** The iterator after the handlers of the loop body ran on an absorbed
    outcome: a rate-limited failure has recorded its wait. *)
Definition record_wait {R : Type} (outcome : result R) (retry : Backoff.t)
    : Backoff.t :=
  match outcome with
  | Raised exc =>
      match rate_limit exc with
      | Some retry_after => Backoff.set_next_backoff retry_after retry
      | None => retry
      end
  | Returned _ => retry
  end.

(** The outcome of invocation number [n] (from zero) of [call], and the
    remote state it leaves, when the invocations follow one another. *)
Fixpoint nth_call {W R : Type} (call : W -> result R * W) (n : nat) (w : W)
    : result R * W :=
  match n with
  | O => call w
  | S n => nth_call call n (snd (call w))
  end.

(** How many times a trace awaited the wrapped call. *)
Fixpoint invocations (events : list event) : nat :=
  match events with
  | [] => 0
  | Invoked :: events => S (invocations events)
  | Slept _ :: events => invocations events
  end.

(** What [asyncio.sleep] adds to the trace. *)
Definition sleep_events (slept : option Q) : list event :=
  match slept with
  | Some duration => [Slept duration]
  | None => []
  end.

(** A wrapped call that answers from a script of outcomes, one per
    invocation, and fails for good once the script is used up. *)
Definition script_call {R : Type} (script : list (result R))
    : result R * list (result R) :=
  match script with
  | outcome :: script => (outcome, script)
  | [] => (Raised (OtherError 0), [])
  end.

(** A remote authority that answers each endpoint from a script of
    outcomes, one per invocation. *)
Module Scripted.

Record t : Type :=
  { guilds : list (result Guild.t);
    roles : list (result (list Role.t));
    channels : list (result PartialChannel) }.

Definition fetch_guild (_ : Z) (w : t) : result Guild.t * t :=
  match guilds w with
  | outcome :: script =>
      (outcome, {| guilds := script; roles := roles w; channels := channels w |})
  | [] => (Raised (OtherError 0), w)
  end.

Definition fetch_roles (_ : Z) (w : t) : result (list Role.t) * t :=
  match roles w with
  | outcome :: script =>
      (outcome, {| guilds := guilds w; roles := script; channels := channels w |})
  | [] => (Raised (OtherError 0), w)
  end.

Definition fetch_channel (_ : Z) (w : t) : result PartialChannel * t :=
  match channels w with
  | outcome :: script =>
      (outcome, {| guilds := guilds w; roles := roles w; channels := script |})
  | [] => (Raised (OtherError 0), w)
  end.

Definition rest : Rest.t t :=
  {| Rest.fetch_guild := fetch_guild;
     Rest.fetch_roles := fetch_roles;
     Rest.fetch_channel := fetch_channel |}.

(** A client without cache in front of the scripted authority. *)
Definition client : Client.t t := {| Client.cache := None; Client.rest := rest |}.

End Scripted.

(** A client with the sample cache in front of the scripted authority. *)
Definition sample_client (guild : Guild.t) (roles : gmap Z Role.t)
    : Client.t Scripted.t :=
  {| Client.cache := Some (sample_cache guild roles);
     Client.rest := Scripted.rest |}.

(** The iterator schedule of the sample runs: one unit per retry. *)
Definition sample_exponential (retries : nat) : Q := 1%Q.

(** A remote authority that was not asked anything yet and has nothing to
    answer. *)
Definition sample_idle : @state Scripted.t :=
  {| remote := {| Scripted.guilds := []; Scripted.roles := [];
                  Scripted.channels := [] |};
     trace := [] |}.

(** ** Further vocabulary *)

(** One bit through a layer of the code: allowed, or else a known flag
    that is not denied and was set below. *)
Definition layer_bit (known allow deny below : bool) : bool :=
  allow || (known && negb deny && below).

(** One bit through the layer of an optional overwrite. *)
Definition overwrite_bit (known : bool) (overwrite : option PermissionOverwrite.t)
    (i : Z) (below : bool) : bool :=
  match overwrite with
  | Some overwrite =>
      layer_bit known (Z.testbit (PermissionOverwrite.allow overwrite) i)
                (Z.testbit (PermissionOverwrite.deny overwrite) i) below
  | None => below
  end.

(** [a] is a subset of [b]. *)
Definition subset (a b : Permissions) : Prop := Z.land a b = a.

(** The channel the cache or the caller resolves before any remote fetch:
    [found_channel] in [fetch_permissions]. *)
Definition cached_channel {W : Type} (client : Client.t W) (channel : channel_ref)
    : option GuildChannel.t :=
  match channel with
  | GuildChannelObject channel => Some channel
  | _ =>
      match Client.cache client with
      | Some cache => Cache.get_guild_channel cache (channel_ref_id channel)
      | None => None
      end
  end.

(** The first step of [fetch_permissions]: the guild from the cache, or
    else fetched, in which case its roles come with it. *)
Definition resolve_guild {W : Type} (exponential : nat -> Q)
    (client : Client.t W) (member : Member.t) (st : @state W)
    : result (Guild.t * option (gmap Z Role.t)) * Backoff.t * @state W :=
  match cached_guild client member with
  | Some guild => (Returned (guild, None), Backoff.new 5 4, st)
  | None =>
      match fetch_resource exponential (Backoff.new 5 4)
              (Rest.fetch_guild (Client.rest client) (Member.guild_id member))
              st with
      | (Returned guild, retry, st) =>
          (Returned (guild, Some (Guild.roles guild)), retry, st)
      | (Raised exc, retry, st) => (Raised exc, retry, st)
      end
  end.

(** The second step of [fetch_permissions], after the owner test: the
    roles that came with the guild if there are any, else the role view of
    the cache if it is not empty, else the fetched roles by id. *)
Definition resolve_roles {W : Type} (exponential : nat -> Q)
    (client : Client.t W) (member : Member.t)
    (roles : option (gmap Z Role.t)) (retry : Backoff.t) (st : @state W)
    : result (gmap Z Role.t) * Backoff.t * @state W :=
  let roles :=
    if mapping_truthy roles then roles
    else
      match Client.cache client with
      | Some cache =>
          Some (Cache.get_roles_view_for_guild cache (Member.guild_id member))
      | None => None
      end in
  let raw_roles :=
    match fetch_resource exponential retry
            (Rest.fetch_roles (Client.rest client) (Member.guild_id member))
            st with
    | (Returned raw_roles, retry, st) =>
        (Returned (roles_by_id raw_roles), retry, st)
    | (Raised exc, retry, st) => (Raised exc, retry, st)
    end in
  match roles with
  | Some roles' =>
      if mapping_truthy roles then (Returned roles', retry, st) else raw_roles
  | None => raw_roles
  end.

(** The durations a trace slept. *)
Fixpoint sleeps (events : list event) : list Q :=
  match events with
  | [] => []
  | Invoked :: events => sleeps events
  | Slept duration :: events => duration :: sleeps events
  end.

(** What a piece of a run cost: from [st] to [st'] the trace grew by at most
    so many awaited calls and so many sleeps. *)
Definition effort {W : Type} (max_invocations max_sleeps : nat)
    (st st' : @state W) : Prop :=
  exists events,
    trace st' = trace st ++ events
    /\ (invocations events <= max_invocations)%nat
    /\ (length (sleeps events) <= max_sleeps)%nat.

(** A step of [fetch_permissions] that used its retry object at most once:
    at most six awaited calls and four sleeps, and the object is still the
    one configured for four retries. *)
Definition one_fetch {W A : Type} (st : @state W)
    (step : result A * Backoff.t * @state W) : Prop :=
  effort 6 4 st (snd step) /\ Backoff.max_retries (snd (fst step)) = 4%nat.

(** A consumer of an asynchronous iterator,
    [async for value in iterator: body(value)]: the values it received, the
    exception that ended the loop if any, and the state it ended in. *)
Fixpoint drain {W A : Type} (body : A -> W -> W) (iterator : pull W A)
    : list A * option exn * W :=
  match iterator with
  | Exhausted w => ([], None, w)
  | Failed exc w => ([], Some exc, w)
  | Yielded value w rest =>
      let '(values, exc, w') := drain body (rest (body value w)) in
      (value :: values, exc, w')
  end.

(** What a consumer sees of two iterators run one after the other: the
    second is started only if the first ended without exception, in the
    state the first left, and its values come after those of the first. *)
Definition one_after_another {W A : Type}
    (first : list A * option exn * W) (second : W -> list A * option exn * W)
    : list A * option exn * W :=
  let '(values, exc, w) := first in
  match exc with
  | Some exc => (values, Some exc, w)
  | None => let '(values', exc', w') := second w in (values ++ values', exc', w')
  end.

(** The sample member with its role ids in another order, one repeated. *)
Definition sample_member_shuffled : Member.t :=
  {| Member.user := {| User.id := 10 |};
     Member.guild_id := 1;
     Member.role_ids := [5; 1; 5] |}.

(** The sample member without role [5]. *)
Definition sample_member_fewer_roles : Member.t :=
  {| Member.user := {| User.id := 10 |};
     Member.guild_id := 1;
     Member.role_ids := [1] |}.

(** The sample guild as the remote authority returns it, roles included. *)
Definition sample_fetched_guild : Guild.t :=
  {| Guild.id := 1; Guild.owner_id := 99; Guild.roles := sample_roles |}.

(** A scripted authority that has one answer for each endpoint. *)
Definition sample_answers (guild : result Guild.t) (channel : result PartialChannel)
    : @state Scripted.t :=
  {| remote := {| Scripted.guilds := [guild]; Scripted.roles := [];
                  Scripted.channels := [channel] |};
     trace := [] |}.

(** The state after the guild was asked for once. *)
Definition sample_after_guild (channel : result PartialChannel)
    : @state Scripted.t :=
  {| remote := {| Scripted.guilds := []; Scripted.roles := [];
                  Scripted.channels := [channel] |};
     trace := [Invoked] |}.

(** The state after the channel was asked for once. *)
Definition sample_after_channel (guild : result Guild.t) : @state Scripted.t :=
  {| remote := {| Scripted.guilds := [guild]; Scripted.roles := [];
                  Scripted.channels := [] |};
     trace := [Invoked] |}.

(** The two sample roles as the remote authority lists them. *)
Definition sample_raw_roles : list Role.t :=
  [ {| Role.id := 1; Role.permissions := sample_VIEW_CHANNEL |};
    {| Role.id := 5; Role.permissions := sample_SEND_MESSAGES |} ].

(** A scripted authority with the given scripts left, after the given
    events. *)
Definition sample_remote (guilds : list (result Guild.t))
    (roles : list (result (list Role.t)))
    (channels : list (result PartialChannel)) (events : list event)
    : @state Scripted.t :=
  {| remote := {| Scripted.guilds := guilds; Scripted.roles := roles;
                  Scripted.channels := channels |};
     trace := events |}.

(** An asynchronous iterable that counts its pulls in the state and yields
    the given values, then raises if an exception is given. *)
Fixpoint sample_iterable (values : list Z) (exc : option exn) (w : nat)
    : pull nat Z :=
  match values with
  | [] => match exc with
          | Some exc => Failed exc (S w)
          | None => Exhausted (S w)
          end
  | value :: values => Yielded value (S w) (sample_iterable values exc)
  end.

(** ** Bitmask algebra *)

Lemma testbit_combine_all (family : list Permissions) (i : Z) :
  Z.testbit (combine_all family) i = existsb (fun flag => Z.testbit flag i) family.
Proof.
  unfold combine_all.
  induction family as [|flag family IH]; cbn [fold_right existsb].
  - apply Z.bits_0.
  - unfold combine at 1. now rewrite Z.lor_spec, IH.
Qed.

Lemma testbit_combine_all_true (family : list Permissions) (i : Z) :
  Z.testbit (combine_all family) i = true <->
  exists flag, flag ∈ family /\ Z.testbit flag i = true.
Proof.
  rewrite testbit_combine_all, existsb_exists.
  split; intros (flag & Hin & Hbit); exists flag; split; trivial;
    now apply list_elem_of_In.
Qed.

Lemma lxor_disjoint (a b : Z) : Z.land a b = 0 -> Z.lxor a b = Z.lor a b.
Proof.
  intros H. apply Z.bits_inj'. intros n _.
  rewrite Z.lxor_spec, Z.lor_spec.
  assert (Hn : Z.testbit (Z.land a b) n = false) by (rewrite H; apply Z.bits_0).
  rewrite Z.land_spec in Hn.
  destruct (Z.testbit a n), (Z.testbit b n); cbn in *; congruence.
Qed.

Lemma land_lor_disjoint (a b c : Z) :
  Z.land a c = 0 -> Z.land b c = 0 -> Z.land (Z.lor a b) c = 0.
Proof.
  intros Ha Hb. now rewrite Z.land_lor_distr_l, Ha, Hb.
Qed.

Lemma fold_xor_is_union (rest : list Permissions) (first : Permissions) :
  forallb (fun other => Z.land first other =? 0) rest = true ->
  flags_disjoint rest = true ->
  fold_left Z.lxor rest first = combine first (combine_all rest).
Proof.
  revert first. induction rest as [|flag rest IH]; intros first Hfirst Hrest; cbn.
  - unfold combine, NONE. now rewrite Z.lor_0_r.
  - cbn in Hfirst, Hrest.
    apply andb_prop in Hfirst as [Hflag Hfirst].
    apply andb_prop in Hrest as [Hflag_rest Hrest].
    apply Z.eqb_eq in Hflag.
    rewrite (lxor_disjoint _ _ Hflag).
    rewrite IH; [| |exact Hrest].
    + unfold combine. now rewrite Z.lor_assoc.
    + apply forallb_forall. intros other Hin.
      rewrite forallb_forall in Hfirst, Hflag_rest.
      specialize (Hfirst other Hin). specialize (Hflag_rest other Hin).
      apply Z.eqb_eq in Hfirst, Hflag_rest. apply Z.eqb_eq.
      now apply land_lor_disjoint.
Qed.

Lemma remove_self (a : Permissions) : remove a a = NONE.
Proof.
  unfold remove, NONE. apply Z.bits_inj'. intros n Hn.
  rewrite Z.land_spec, Z.lnot_spec, Z.bits_0 by exact Hn.
  now destruct (Z.testbit a n).
Qed.

Lemma combine_all_absorbs (family : list Permissions) (flag : Permissions) :
  flag ∈ family -> combine (combine_all family) flag = combine_all family.
Proof.
  intros Hin%list_elem_of_In. apply Z.bits_inj'. intros n _.
  unfold combine at 1. rewrite Z.lor_spec, testbit_combine_all.
  destruct (Z.testbit flag n) eqn:E; [|now rewrite orb_false_r].
  rewrite orb_true_r. symmetry. apply existsb_exists. now exists flag.
Qed.

(** C9. Over a non-empty universe of pairwise disjoint flags, the reduction
    by exclusive-or that defines [ALL_PERMISSIONS] succeeds and its value is
    the union of every flag of the universe; hence combining
    [ALL_PERMISSIONS] with any flag of the universe gives [ALL_PERMISSIONS]
    back, and removing [ALL_PERMISSIONS] from itself leaves the empty set. *)
Theorem all_permissions_is_union (flags : list Permissions) :
  flags <> [] ->
  flags_disjoint flags = true ->
  reduce Z.lxor flags = Some (ALL_PERMISSIONS flags)
  /\ ALL_PERMISSIONS flags = combine_all flags
  /\ (forall i, Z.testbit (ALL_PERMISSIONS flags) i = true <->
                exists flag, flag ∈ flags /\ Z.testbit flag i = true)
  /\ (forall flag, flag ∈ flags ->
        combine (ALL_PERMISSIONS flags) flag = ALL_PERMISSIONS flags)
  /\ remove (ALL_PERMISSIONS flags) (ALL_PERMISSIONS flags) = NONE.
Proof.
  intros Hne Hdisjoint.
  assert (Hall : ALL_PERMISSIONS flags = combine_all flags).
  { destruct flags as [|first rest]; [congruence|].
    cbn in Hdisjoint. apply andb_prop in Hdisjoint as [Hfirst Hrest].
    unfold ALL_PERMISSIONS. cbn. now apply fold_xor_is_union. }
  repeat split.
  - destruct flags; [congruence|reflexivity].
  - exact Hall.
  - rewrite Hall. apply testbit_combine_all_true.
  - rewrite Hall. apply testbit_combine_all_true.
  - intros flag Hin. rewrite Hall. now apply combine_all_absorbs.
  - apply remove_self.
Qed.

(** Without disjointness the reduction by exclusive-or is not the union:
    a bit that two members share cancels. *)
Lemma all_permissions_cancels_shared_bits :
  ALL_PERMISSIONS [1; 2; 2] = 1 /\ combine_all [1; 2; 2] = 3.
Proof. split; reflexivity. Qed.

(** ** The role permission resolver *)

Lemma combine_assoc (a b c : Permissions) :
  combine (combine a b) c = combine a (combine b c).
Proof. unfold combine. symmetry. apply Z.lor_assoc. Qed.

Lemma combine_NONE_l (a : Permissions) : combine NONE a = a.
Proof. apply Z.lor_0_l. Qed.

Lemma combine_NONE_r (a : Permissions) : combine a NONE = a.
Proof. apply Z.lor_0_r. Qed.

Lemma role_loop_union (roles : gmap Z Role.t) (guild_id : Z)
    (role_ids : list Z) (permissions : Permissions) :
  fold_left
    (fun permissions role_id =>
       match roles !! role_id with
       | Some role =>
           if negb (Role.id role =? guild_id)
           then Z.lor permissions (Role.permissions role)
           else permissions
       | None => permissions
       end) role_ids permissions
  = combine permissions
      (combine_all
         (map Role.permissions
            (filter (fun role => Role.id role <> guild_id)
                    (omap (fun role_id => roles !! role_id) role_ids)))).
Proof.
  revert permissions.
  induction role_ids as [|role_id role_ids IH]; intros permissions.
  - cbn. now rewrite combine_NONE_r.
  - cbn [fold_left omap list_omap]. rewrite IH. clear IH.
    destruct (roles !! role_id) as [role|]; [|reflexivity].
    rewrite filter_cons. destruct (Z.eqb_spec (Role.id role) guild_id) as [E|E].
    + now rewrite decide_False by (intros H; now apply H).
    + rewrite decide_True by exact E. cbn [negb map].
      change (combine_all (?p :: ?l)) with (combine p (combine_all l)).
      now rewrite <- combine_assoc.
Qed.

(** C5. When the mapping has an entry keyed by the member's guild id, the
    resolver returns the permissions of that everyone-role combined with
    the permissions of every held role, where the held roles are exactly
    the roles found in the mapping under a role id of the member and whose
    id is not the guild id; a role id the mapping does not have contributes
    nothing and raises nothing. *)
Theorem role_permissions_union
    (roles : gmap Z Role.t) (member : Member.t) (everyone : Role.t) :
  roles !! Member.guild_id member = Some everyone ->
  _calculate_role_permissions roles member
  = Returned (combine (Role.permissions everyone)
                (combine_all (map Role.permissions (held_roles roles member))))
  /\ (forall role,
        role ∈ held_roles roles member <->
        exists role_id,
          role_id ∈ Member.role_ids member
          /\ roles !! role_id = Some role
          /\ Role.id role <> Member.guild_id member)
  /\ (forall permissions,
        _calculate_role_permissions roles member = Returned permissions ->
        forall i,
          Z.testbit permissions i = true <->
          Z.testbit (Role.permissions everyone) i = true
          \/ exists role_id role,
               role_id ∈ Member.role_ids member
               /\ roles !! role_id = Some role
               /\ Role.id role <> Member.guild_id member
               /\ Z.testbit (Role.permissions role) i = true).
Proof.
  intros Heveryone.
  assert (Hheld : forall role,
             role ∈ held_roles roles member <->
             exists role_id,
               role_id ∈ Member.role_ids member
               /\ roles !! role_id = Some role
               /\ Role.id role <> Member.guild_id member).
  { intros role. unfold held_roles.
    rewrite list_elem_of_filter, list_elem_of_omap. split.
    - intros (Hid & role_id & Hin & Hlookup). now exists role_id.
    - intros (role_id & Hin & Hlookup & Hid). split; [exact Hid|].
      now exists role_id. }
  assert (Hresult :
            _calculate_role_permissions roles member
            = Returned (combine (Role.permissions everyone)
                          (combine_all (map Role.permissions (held_roles roles member))))).
  { unfold _calculate_role_permissions. rewrite Heveryone.
    now rewrite role_loop_union. }
  split; [exact Hresult|]. split; [exact Hheld|].
  intros permissions Hpermissions i.
  rewrite Hresult in Hpermissions. injection Hpermissions as <-.
  unfold combine at 1. rewrite Z.lor_spec, orb_true_iff, testbit_combine_all_true.
  split; (intros [Hbit|Hbit]; [now left|right]).
  - destruct Hbit as (flag & Hin & Hbit).
    apply list_elem_of_fmap in Hin as (role & -> & Hin).
    apply Hheld in Hin as (role_id & Hin & Hlookup & Hid).
    now exists role_id, role.
  - destruct Hbit as (role_id & role & Hin & Hlookup & Hid & Hbit).
    exists (Role.permissions role). split; [|exact Hbit].
    apply list_elem_of_fmap. exists role. split; [reflexivity|].
    apply Hheld. now exists role_id.
Qed.

(** ** The channel overwrite resolver *)

Lemma overwrite_loop_union (overwrites : list PermissionOverwrite.t)
    (deny allow : Permissions) :
  fold_left
    (fun '(deny, allow) overwrite =>
       (Z.lor deny (PermissionOverwrite.deny overwrite),
        Z.lor allow (PermissionOverwrite.allow overwrite)))
    overwrites (deny, allow)
  = (combine deny (combine_all (map PermissionOverwrite.deny overwrites)),
     combine allow (combine_all (map PermissionOverwrite.allow overwrites))).
Proof.
  revert deny allow.
  induction overwrites as [|overwrite overwrites IH]; intros deny allow.
  - cbn. now rewrite !combine_NONE_r.
  - cbn [fold_left map]. rewrite IH.
    change (combine_all (?p :: ?l)) with (combine p (combine_all l)).
    now rewrite <- !combine_assoc.
Qed.

Lemma channel_overwrites_layers (Permissions_members : list Permissions)
    (channel : GuildChannel.t) (member : Member.t) (permissions : Permissions) :
  _calculate_channel_overwrites Permissions_members channel member permissions
  = apply_known_overwrite (everything Permissions_members)
      (GuildChannel.permission_overwrites channel !! User.id (Member.user member))
      (apply_known_layer (everything Permissions_members)
         (combine_all (map PermissionOverwrite.deny (held_role_overwrites channel member)))
         (combine_all (map PermissionOverwrite.allow (held_role_overwrites channel member)))
         (apply_known_overwrite (everything Permissions_members)
            (GuildChannel.permission_overwrites channel !! Member.guild_id member)
            permissions)).
Proof.
  unfold _calculate_channel_overwrites.
  change (omap _ (Member.role_ids member)) with (held_role_overwrites channel member).
  rewrite overwrite_loop_union, !combine_NONE_l.
  unfold apply_known_overwrite, apply_known_layer, invert, remove, combine.
  destruct (GuildChannel.permission_overwrites channel !! Member.guild_id member);
    destruct (GuildChannel.permission_overwrites channel !! User.id (Member.user member));
    now rewrite !Z.land_assoc.
Qed.

Lemma testbit_apply_known_layer (known deny allow permissions : Permissions) (i : Z) :
  Z.testbit (apply_known_layer known deny allow permissions) i
  = layer_bit (Z.testbit known i) (Z.testbit allow i) (Z.testbit deny i)
      (Z.testbit permissions i).
Proof.
  unfold apply_known_layer, combine, remove, layer_bit.
  destruct (Z.ltb_spec i 0) as [Hneg|Hpos].
  - now rewrite !Z.testbit_neg_r by exact Hneg.
  - rewrite Z.lor_spec, !Z.land_spec, Z.lnot_spec by exact Hpos.
    now destruct (Z.testbit known i), (Z.testbit allow i), (Z.testbit deny i),
      (Z.testbit permissions i).
Qed.

Lemma testbit_apply_known_overwrite (known : Permissions)
    (overwrite : option PermissionOverwrite.t) (permissions : Permissions) (i : Z) :
  Z.testbit (apply_known_overwrite known overwrite permissions) i
  = overwrite_bit (Z.testbit known i) overwrite i (Z.testbit permissions i).
Proof.
  destruct overwrite as [overwrite|];
    [apply testbit_apply_known_layer|reflexivity].
Qed.

Lemma testbit_apply_layer (deny allow permissions : Permissions) (i : Z) :
  Z.testbit (apply_layer deny allow permissions) i
  = layer_bit true (Z.testbit allow i) (Z.testbit deny i) (Z.testbit permissions i).
Proof.
  unfold apply_layer, combine, remove, layer_bit.
  destruct (Z.ltb_spec i 0) as [Hneg|Hpos].
  - now rewrite !Z.testbit_neg_r by exact Hneg.
  - rewrite Z.lor_spec, Z.land_spec, Z.lnot_spec by exact Hpos.
    now destruct (Z.testbit allow i), (Z.testbit deny i), (Z.testbit permissions i).
Qed.

Lemma testbit_apply_overwrite (overwrite : option PermissionOverwrite.t)
    (permissions : Permissions) (i : Z) :
  Z.testbit (apply_overwrite overwrite permissions) i
  = overwrite_bit true overwrite i (Z.testbit permissions i).
Proof.
  destruct overwrite as [overwrite|]; [apply testbit_apply_layer|reflexivity].
Qed.

Lemma testbit_combine_all_map {A : Type} (f : A -> Permissions) (l : list A) (i : Z) :
  Z.testbit (combine_all (map f l)) i = existsb (fun x => Z.testbit (f x) i) l.
Proof.
  rewrite testbit_combine_all. induction l as [|x l IH]; [reflexivity|].
  cbn. now rewrite IH.
Qed.

Lemma subset_testbit (a b : Permissions) :
  subset a b <-> forall i, Z.testbit a i = true -> Z.testbit b i = true.
Proof.
  unfold subset. split.
  - intros H i Ha. rewrite <- H, Z.land_spec in Ha. now apply andb_prop in Ha.
  - intros H. apply Z.bits_inj'. intros n _. rewrite Z.land_spec.
    specialize (H n). destruct (Z.testbit a n); [now rewrite H|reflexivity].
Qed.

(** Outside the known flags a set within them has no bit. *)
Lemma subset_unknown_bit (a known : Permissions) (i : Z) :
  subset a known -> Z.testbit known i = false -> Z.testbit a i = false.
Proof.
  intros Hsubset Hknown. rewrite subset_testbit in Hsubset.
  specialize (Hsubset i). destruct (Z.testbit a i); [|reflexivity].
  rewrite Hsubset in Hknown by reflexivity. discriminate.
Qed.

(** A layer that denies a permission and does not allow it back leaves the
    permission unset, whatever the set it is applied to. *)
Lemma denied_by_layer (known deny allow SEND permissions : Permissions) :
  Z.land deny SEND = SEND ->
  Z.land allow SEND = 0 ->
  Z.land (apply_known_layer known deny allow permissions) SEND = 0.
Proof.
  intros Hdeny Hallow. apply Z.bits_inj'. intros n Hn.
  pose proof (f_equal (fun z => Z.testbit z n) Hdeny) as Hd.
  pose proof (f_equal (fun z => Z.testbit z n) Hallow) as Ha.
  cbn beta in Hd, Ha. rewrite Z.land_spec in Hd, Ha. rewrite Z.bits_0 in Ha.
  rewrite Z.land_spec, testbit_apply_known_layer, Z.bits_0. unfold layer_bit.
  destruct (Z.testbit deny n), (Z.testbit allow n), (Z.testbit SEND n),
    (Z.testbit permissions n), (Z.testbit known n); cbn in *; congruence.
Qed.

(** C1. The resolver is the composition of three layers in the order
    everyone-overwrite, role-overwrites, member-overwrite: the role layer
    works with the union of the denies and the union of the allows of the
    overwrites keyed by a role id the member holds, and a single-subject
    layer whose overwrite is absent is skipped.  A layer keeps, of the set
    it is applied to, the known flags that it does not deny (the complement
    of hikari is taken within the members of the enum), then adds its
    allowed bits.  When the base set and the allowed bits of the
    everyone-overwrite and of the held roles' overwrites are known flags,
    this is removing the denied bits and adding the allowed bits, layer by
    layer.  In particular, when the everyone-overwrite denies [SEND], the
    overwrite of a held role allows [SEND] and the member-overwrite denies
    [SEND], the result does not contain [SEND], for every base permission
    set. *)
Theorem channel_overwrites_layer_order (Permissions_members : list Permissions)
    (channel : GuildChannel.t) (member : Member.t) :
  let overwrites := GuildChannel.permission_overwrites channel in
  let known := everything Permissions_members in
  (forall permissions,
     _calculate_channel_overwrites Permissions_members channel member permissions
     = apply_known_overwrite known (overwrites !! User.id (Member.user member))
         (apply_known_layer known
            (combine_all (map PermissionOverwrite.deny (held_role_overwrites channel member)))
            (combine_all (map PermissionOverwrite.allow (held_role_overwrites channel member)))
            (apply_known_overwrite known (overwrites !! Member.guild_id member)
               permissions)))
  /\ (forall overwrite,
        overwrite ∈ held_role_overwrites channel member <->
        exists role_id,
          role_id ∈ Member.role_ids member /\ overwrites !! role_id = Some overwrite)
  /\ (forall permissions,
        subset permissions known ->
        (forall overwrite,
           overwrites !! Member.guild_id member = Some overwrite ->
           subset (PermissionOverwrite.allow overwrite) known) ->
        (forall overwrite,
           overwrite ∈ held_role_overwrites channel member ->
           subset (PermissionOverwrite.allow overwrite) known) ->
        _calculate_channel_overwrites Permissions_members channel member permissions
        = overwrite_layers channel member permissions)
  /\ (forall (SEND : Permissions) (role_id : Z),
        overwrites !! Member.guild_id member
        = Some {| PermissionOverwrite.allow := NONE; PermissionOverwrite.deny := SEND |} ->
        role_id ∈ Member.role_ids member ->
        overwrites !! role_id
        = Some {| PermissionOverwrite.allow := SEND; PermissionOverwrite.deny := NONE |} ->
        overwrites !! User.id (Member.user member)
        = Some {| PermissionOverwrite.allow := NONE; PermissionOverwrite.deny := SEND |} ->
        forall permissions,
          Z.land (_calculate_channel_overwrites Permissions_members channel member
                    permissions) SEND = 0).
Proof.
  intros overwrites known. split; [|split; [|split]].
  - apply channel_overwrites_layers.
  - intros overwrite. unfold held_role_overwrites. apply list_elem_of_omap.
  - intros permissions Hbase Heveryone Hroles.
    rewrite channel_overwrites_layers. unfold overwrite_layers.
    fold overwrites. fold known.
    apply Z.bits_inj'. intros n _.
    rewrite testbit_apply_known_overwrite, testbit_apply_known_layer,
      testbit_apply_known_overwrite, testbit_apply_overwrite, testbit_apply_layer,
      testbit_apply_overwrite, !testbit_combine_all_map.
    destruct (Z.testbit known n) eqn:Hknown; [reflexivity|].
    rewrite (subset_unknown_bit _ _ n Hbase Hknown).
    assert (Hallow : existsb
                       (fun overwrite => Z.testbit (PermissionOverwrite.allow overwrite) n)
                       (held_role_overwrites channel member) = false).
    { apply not_true_is_false. intros Hexists.
      apply existsb_exists in Hexists as (overwrite & Hin & Hbit).
      apply list_elem_of_In in Hin.
      now rewrite (subset_unknown_bit _ _ n (Hroles _ Hin) Hknown) in Hbit. }
    rewrite Hallow. unfold overwrite_bit, layer_bit.
    destruct (overwrites !! Member.guild_id member) as [everyone_overwrite|].
    + rewrite (subset_unknown_bit _ _ n (Heveryone _ eq_refl) Hknown).
      destruct (overwrites !! User.id (Member.user member)); cbn;
        now rewrite ?andb_false_r.
    + destruct (overwrites !! User.id (Member.user member)); cbn;
        now rewrite ?andb_false_r.
  - intros SEND role_id _ _ _ Hmember permissions.
    rewrite channel_overwrites_layers. fold overwrites. rewrite Hmember.
    cbn [apply_known_overwrite PermissionOverwrite.deny PermissionOverwrite.allow].
    apply denied_by_layer; [apply Z.land_diag | apply Z.land_0_l].
Qed.

(** On a base set with a bit that no member of the sample enum has and a
    channel without overwrites, the code returns the known flag alone,
    where removing denied bits and adding allowed bits, layer by layer,
    leaves the base set as it is. *)
Lemma channel_overwrites_drop_unknown_flag :
  _calculate_channel_overwrites sample_flags sample_foreign_channel sample_member
    (Z.lor sample_VIEW_CHANNEL (Z.shiftl 1 33))
  = sample_VIEW_CHANNEL
  /\ overwrite_layers sample_foreign_channel sample_member
       (Z.lor sample_VIEW_CHANNEL (Z.shiftl 1 33))
     = Z.lor sample_VIEW_CHANNEL (Z.shiftl 1 33)
  /\ (sample_VIEW_CHANNEL =? Z.lor sample_VIEW_CHANNEL (Z.shiftl 1 33)) = false.
Proof. repeat split. Qed.

(** The order of the layers matters: in the scenario of the theorem above,
    applying the member layer before the role layer would grant [SEND]. *)
Lemma layer_order_matters (SEND permissions : Permissions) :
  Z.land
    (apply_layer NONE SEND
       (apply_layer SEND NONE (apply_layer SEND NONE permissions))) SEND
  = SEND.
Proof.
  unfold apply_layer, combine. apply Z.bits_inj'. intros n _.
  rewrite Z.land_spec, Z.lor_spec.
  now destruct (Z.testbit SEND n); rewrite ?orb_true_r, ?andb_false_r.
Qed.

(** ** The permission calculator *)

Lemma role_permissions_returned
    (roles : gmap Z Role.t) (member : Member.t) (everyone : Role.t) :
  roles !! Member.guild_id member = Some everyone ->
  _calculate_role_permissions roles member
  = Returned (combine (Role.permissions everyone)
                (combine_all (map Role.permissions (held_roles roles member)))).
Proof.
  intros Heveryone. unfold _calculate_role_permissions. rewrite Heveryone.
  now rewrite role_loop_union.
Qed.

Lemma role_permissions_raised
    (roles : gmap Z Role.t) (member : Member.t) (exc : exn) :
  _calculate_role_permissions roles member = Raised exc <->
  roles !! Member.guild_id member = None /\ exc = KeyError (Member.guild_id member).
Proof.
  unfold _calculate_role_permissions.
  destruct (roles !! Member.guild_id member) as [everyone|]; split.
  - discriminate.
  - intros [? _]. discriminate.
  - intros [= <-]. now split.
  - intros [_ ->]. reflexivity.
Qed.

Section CalculatorFacts.

Variable Permissions_members : list Permissions.
Variable ADMINISTRATOR : Permissions.

Local Abbreviation ALL := (ALL_PERMISSIONS Permissions_members).
Local Abbreviation calculate := (calculate_permissions Permissions_members ADMINISTRATOR).

(** C2. For a member of the guild and a role mapping that has the
    everyone-role entry, if the union of the role-derived permissions
    meets the administrator flag, [calculate_permissions] returns
    [ALL_PERMISSIONS] for every choice of the optional channel: the
    overwrites of the channel have no influence on the result. *)
Theorem administrator_overrides_overwrites
    (member : Member.t) (guild : Guild.t) (roles : gmap Z Role.t)
    (everyone : Role.t) :
  Member.guild_id member = Guild.id guild ->
  roles !! Member.guild_id member = Some everyone ->
  Z.land (combine (Role.permissions everyone)
            (combine_all (map Role.permissions (held_roles roles member))))
         ADMINISTRATOR <> 0 ->
  forall channel : option GuildChannel.t,
    calculate member guild roles channel = Returned ALL.
Proof.
  intros Hguild Heveryone Hadmin channel. unfold calculate_permissions.
  rewrite (proj2 (Z.eqb_eq _ _) Hguild). cbn [negb].
  destruct (Guild.owner_id guild =? User.id (Member.user member)); [reflexivity|].
  rewrite (role_permissions_returned _ _ _ Heveryone).
  now rewrite (proj2 (Z.eqb_neq _ _) Hadmin).
Qed.

(** The first precondition of [calculate_permissions]: a member of another
    guild is refused with a [ValueError]. *)
Lemma calculate_permissions_foreign_member
    (member : Member.t) (guild : Guild.t) (roles : gmap Z Role.t)
    (channel : option GuildChannel.t) :
  Member.guild_id member <> Guild.id guild ->
  calculate member guild roles channel
  = Raised (ValueError "Member object isn't from the provided guild").
Proof.
  intros Hguild. unfold calculate_permissions.
  now rewrite (proj2 (Z.eqb_neq _ _) Hguild).
Qed.

(** Past the short-circuits, [calculate_permissions] hands the channel to
    the overwrite resolver without looking at the guild of the channel. *)
Lemma calculate_permissions_channel_guild_unchecked
    (member : Member.t) (guild : Guild.t) (roles : gmap Z Role.t)
    (channel : GuildChannel.t) (permissions : Permissions) :
  Member.guild_id member = Guild.id guild ->
  Guild.owner_id guild <> User.id (Member.user member) ->
  _calculate_role_permissions roles member = Returned permissions ->
  Z.land permissions ADMINISTRATOR = 0 ->
  calculate member guild roles (Some channel)
  = Returned (_calculate_channel_overwrites Permissions_members channel member permissions).
Proof.
  intros Hguild Howner Hroles Hadmin. unfold calculate_permissions.
  rewrite (proj2 (Z.eqb_eq _ _) Hguild), (proj2 (Z.eqb_neq _ _) Howner), Hroles.
  now rewrite (proj2 (Z.eqb_eq _ _) Hadmin).
Qed.

End CalculatorFacts.

(** C4. The specification asks [calculate_permissions] for a validation
    error when the channel belongs to another guild than [guild].  On the
    sample member of guild [1], who is neither owner nor administrator,
    and a channel of guild [2], the function returns a permission value
    instead. *)
Theorem calculate_permissions_accepts_foreign_channel :
  GuildChannel.guild_id sample_foreign_channel <> Guild.id sample_guild
  /\ calculate_permissions sample_flags sample_ADMINISTRATOR
       sample_member sample_guild sample_roles (Some sample_foreign_channel)
     = Returned (Z.lor sample_VIEW_CHANNEL sample_SEND_MESSAGES).
Proof. split; [discriminate | reflexivity]. Qed.

(** ** The retry loop *)

Lemma invocations_app (events events' : list event) :
  invocations (events ++ events') = (invocations events + invocations events')%nat.
Proof.
  induction events as [|[|duration] events IH]; cbn; [reflexivity| |exact IH].
  now rewrite IH.
Qed.

Lemma invocations_sleep_events (slept : option Q) :
  invocations (sleep_events slept) = 0%nat.
Proof. now destruct slept. Qed.

Lemma anext_depleted (exponential : nat -> Q) (retry : Backoff.t) :
  Backoff.budget retry = 0%nat ->
  Backoff.anext exponential retry = (Backoff.StopAsyncIteration, retry)
  /\ Backoff.is_depleted retry = true.
Proof.
  unfold Backoff.budget, Backoff.anext, Backoff.is_depleted.
  destruct retry as [maximum max_retries [|] retries next_backoff]; cbn;
    [|discriminate].
  intros H. assert (E : (max_retries <=? retries)%nat = true)
    by (apply Nat.leb_le; lia).
  now rewrite E.
Qed.

Lemma anext_continue (exponential : nat -> Q) (retry : Backoff.t) (b : nat) :
  Backoff.budget retry = S b ->
  exists slept retry',
    Backoff.anext exponential retry = (Backoff.Continue slept, retry')
    /\ Backoff.budget retry' = b
    /\ Backoff.max_retries retry' = Backoff.max_retries retry
    /\ Backoff.maximum retry' = Backoff.maximum retry
    /\ slept = (if Backoff.started retry
                then Some (match Backoff.next_backoff retry with
                           | Some backoff_ => backoff_
                           | None => exponential (Backoff.retries retry)
                           end)
                else None).
Proof.
  unfold Backoff.budget, Backoff.anext, Backoff.is_depleted.
  destruct retry as [maximum max_retries [|] retries next_backoff]; cbn; intros H.
  - assert (E : (max_retries <=? retries)%nat = false)
      by (apply Nat.leb_gt; lia).
    rewrite E. eexists _, _. split; [reflexivity|]. cbn. repeat split. lia.
  - eexists _, _. split; [reflexivity|]. cbn. repeat split. lia.
Qed.

Lemma record_wait_budget {R : Type} (outcome : result R) (retry : Backoff.t) :
  Backoff.budget (record_wait outcome retry) = Backoff.budget retry
  /\ Backoff.max_retries (record_wait outcome retry) = Backoff.max_retries retry
  /\ Backoff.maximum (record_wait outcome retry) = Backoff.maximum retry.
Proof.
  destruct outcome as [value|exc]; [now repeat split|].
  cbn. now destruct (rate_limit exc).
Qed.

Section LoopFacts.

Context {W R : Type}.
Variable exponential : nat -> Q.
Variable call : W -> result R * W.

Local Abbreviation loop := (fetch_resource_loop exponential call).

Lemma fetch_resource_loop_step (retry : Backoff.t) (st : @state W) :
  loop retry st
  = match Backoff.anext exponential retry with
    | (Backoff.StopAsyncIteration, retry') =>
        let '(outcome, st') := await call st in (outcome, retry', st')
    | (Backoff.Continue slept, retry') =>
        match await call (sleep slept st) with
        | (Returned value, st') => (Returned value, retry', st')
        | (Raised (RateLimitedError retry_after as exc), st')
        | (Raised (RateLimitTooLongError retry_after as exc), st') =>
            if negb (Qle_bool retry_after 5) then (Raised exc, retry', st')
            else loop (Backoff.set_next_backoff retry_after retry') st'
        | (Raised InternalServerError, st') => loop retry' st'
        | (Raised exc, st') => (Raised exc, retry', st')
        end
    end.
Proof.
  rewrite fetch_resource_loop_equation_1. unfold inspect.
  generalize (@eq_refl _ (Backoff.anext exponential retry)).
  generalize (Backoff.anext exponential retry) at 2 4 5.
  intros [[|slept] retry'] e; reflexivity.
Qed.

Lemma await_after_sleep (slept : option Q) (st : @state W) :
  await call (sleep slept st)
  = (fst (call (remote st)),
     {| remote := snd (call (remote st));
        trace := trace st ++ sleep_events slept ++ [Invoked] |}).
Proof.
  unfold await, sleep. destruct slept as [duration|]; cbn.
  - destruct (call (remote st)). cbn. now rewrite <- app_assoc.
  - now destruct (call (remote st)).
Qed.

(** The loop has no retry left: the [else] clause awaits the call once
    more, outside of any handler. *)
Lemma unguarded_attempt (retry : Backoff.t) (st : @state W) :
  Backoff.anext exponential retry = (Backoff.StopAsyncIteration, retry) ->
  loop retry st
  = (fst (call (remote st)), retry,
     {| remote := snd (call (remote st)); trace := trace st ++ [Invoked] |}).
Proof.
  intros Hnext. rewrite fetch_resource_loop_step, Hnext.
  unfold await. now destruct (call (remote st)).
Qed.

(** One iteration of the loop body: an absorbed outcome goes round the
    loop, any other outcome leaves [fetch_resource]. *)
Lemma guarded_attempt (retry retry' : Backoff.t) (slept : option Q)
    (st : @state W) :
  Backoff.anext exponential retry = (Backoff.Continue slept, retry') ->
  let outcome := fst (call (remote st)) in
  let st' := {| remote := snd (call (remote st));
                trace := trace st ++ sleep_events slept ++ [Invoked] |} in
  loop retry st
  = if retryable outcome then loop (record_wait outcome retry') st'
    else (outcome, retry', st').
Proof.
  intros Hnext outcome st'.
  rewrite fetch_resource_loop_step, Hnext, await_after_sleep.
  fold outcome. fold st'.
  destruct outcome as [value|[]]; cbn; try reflexivity;
    now destruct (Qle_bool retry_after 5).
Qed.

(** The outcome of the loop: it absorbs retryable outcomes while the
    iterator hands out iterations and returns the first outcome that is
    not retryable; when the iterator is exhausted, the next outcome is
    returned whatever it is. *)
Lemma loop_outcome (k : nat) :
  forall (retry : Backoff.t) (st : @state W),
    (k <= Backoff.budget retry)%nat ->
    (forall i, (i < k)%nat -> retryable (fst (nth_call call i (remote st))) = true) ->
    ((k < Backoff.budget retry)%nat ->
     retryable (fst (nth_call call k (remote st))) = false) ->
    exists retry' events,
      loop retry st
      = (fst (nth_call call k (remote st)), retry',
         {| remote := snd (nth_call call k (remote st));
            trace := trace st ++ events |})
      /\ invocations events = S k
      /\ Backoff.max_retries retry' = Backoff.max_retries retry
      /\ Backoff.maximum retry' = Backoff.maximum retry.
Proof.
  induction k as [|k IH]; intros retry st Hbudget Habsorbed Hlast.
  - destruct (Backoff.budget retry) as [|b] eqn:Hb.
    + destruct (anext_depleted exponential retry Hb) as [Hnext _].
      exists retry, [Invoked]. rewrite (unguarded_attempt _ _ Hnext). now cbn.
    + destruct (anext_continue exponential retry b Hb)
        as (slept & retry' & Hnext & _ & Hmax & Hmaximum & _).
      rewrite (guarded_attempt _ _ _ _ Hnext).
      cbn in Hlast. rewrite Hlast by lia.
      exists retry', (sleep_events slept ++ [Invoked]). cbn.
      rewrite invocations_app, invocations_sleep_events. now cbn.
  - destruct (Backoff.budget retry) as [|b] eqn:Hb; [lia|].
    destruct (anext_continue exponential retry b Hb)
      as (slept & retry' & Hnext & Hb' & Hmax & Hmaximum & _).
    rewrite (guarded_attempt _ _ _ _ Hnext).
    pose proof (Habsorbed 0%nat ltac:(lia)) as Hfirst. cbn in Hfirst.
    rewrite Hfirst.
    set (outcome := fst (call (remote st))).
    destruct (record_wait_budget outcome retry') as (Hrb & Hrmax & Hrmaximum).
    set (st' := {| remote := snd (call (remote st));
                   trace := trace st ++ sleep_events slept ++ [Invoked] |}).
    destruct (IH (record_wait outcome retry') st') as (retry'' & events & Hloop & Hinv & Hmax' & Hmaximum').
    + rewrite Hrb, Hb'. lia.
    + intros i Hi. apply (Habsorbed (S i)). lia.
    + intros Hk. apply Hlast. rewrite Hrb, Hb' in Hk. lia.
    + exists retry'', (sleep_events slept ++ [Invoked] ++ events).
      rewrite Hloop. cbn [nth_call remote trace st'].
      rewrite <- !app_assoc. repeat split.
      * rewrite !invocations_app, invocations_sleep_events, Hinv. now cbn.
      * congruence.
      * congruence.
Qed.

End LoopFacts.

(** Among the first [b] invocations, the first one whose outcome the loop
    does not absorb, or [b] itself when it absorbs them all. *)
Lemma first_not_absorbed (absorbed : nat -> bool) (b : nat) :
  exists k, (k <= b)%nat
            /\ (forall i, (i < k)%nat -> absorbed i = true)
            /\ ((k < b)%nat -> absorbed k = false).
Proof.
  induction b as [|b (k & Hk & Hbefore & Hat)].
  - exists 0%nat. repeat split; intros; lia.
  - destruct (Nat.eq_dec k b) as [->|Hne].
    + destruct (absorbed b) eqn:Hb.
      * exists (S b). repeat split; [lia| |lia].
        intros i Hi. destruct (Nat.eq_dec i b) as [->|]; [exact Hb|].
        apply Hbefore. lia.
      * exists b. repeat split; [lia|exact Hbefore|trivial].
    + exists k. repeat split; [lia|exact Hbefore|].
      intros _. apply Hat. lia.
Qed.

Section FetchResourceFacts.

Context {W R : Type}.
Variable exponential : nat -> Q.
Variable call : W -> result R * W.

Lemma fetch_resource_outcome (k : nat) (retry : Backoff.t) (st : @state W) :
  (k <= S (Backoff.max_retries retry))%nat ->
  (forall i, (i < k)%nat -> retryable (fst (nth_call call i (remote st))) = true) ->
  ((k < S (Backoff.max_retries retry))%nat ->
   retryable (fst (nth_call call k (remote st))) = false) ->
  exists retry' events,
    fetch_resource exponential retry call st
    = (fst (nth_call call k (remote st)), retry',
       {| remote := snd (nth_call call k (remote st));
          trace := trace st ++ events |})
    /\ invocations events = S k
    /\ Backoff.max_retries retry' = Backoff.max_retries retry
    /\ Backoff.maximum retry' = Backoff.maximum retry.
Proof.
  intros Hk Habsorbed Hlast. unfold fetch_resource.
  assert (Hbudget : Backoff.budget (Backoff.reset retry)
                    = S (Backoff.max_retries retry))
    by (unfold Backoff.budget; cbn; lia).
  apply (loop_outcome exponential call k (Backoff.reset retry) st);
    rewrite ?Hbudget; assumption.
Qed.

(** C8. When every guarded attempt fails with an outcome the loop absorbs,
    that is the first attempt and the [max_retries] retries that follow it
    (four with the iterator of [fetch_permissions]), [fetch_resource]
    awaits the call exactly once more and its result is the outcome of that
    last invocation as it is, a value or an exception of any kind.  More
    generally the result of [fetch_resource] is always the outcome of the
    last invocation it made: no exception of its own is ever produced. *)
Theorem retries_exhausted_unguarded_call (retry : Backoff.t) (st : @state W) :
  (forall i, (i <= Backoff.max_retries retry)%nat ->
             retryable (fst (nth_call call i (remote st))) = true) ->
  (exists retry' events,
     fetch_resource exponential retry call st
     = (fst (nth_call call (S (Backoff.max_retries retry)) (remote st)), retry',
        {| remote := snd (nth_call call (S (Backoff.max_retries retry)) (remote st));
           trace := trace st ++ events |})
     /\ invocations events = S (S (Backoff.max_retries retry)))
  /\ (forall (retry0 : Backoff.t) (st0 : @state W),
        exists k retry' events,
          (k <= S (Backoff.max_retries retry0))%nat
          /\ fetch_resource exponential retry0 call st0
             = (fst (nth_call call k (remote st0)), retry',
                {| remote := snd (nth_call call k (remote st0));
                   trace := trace st0 ++ events |})
          /\ invocations events = S k).
Proof.
  intros Habsorbed. split.
  - destruct (fetch_resource_outcome (S (Backoff.max_retries retry)) retry st)
      as (retry' & events & Hfetch & Hinv & _).
    + lia.
    + intros i Hi. apply Habsorbed. lia.
    + lia.
    + now exists retry', events.
  - intros retry0 st0.
    destruct (first_not_absorbed
                (fun i => retryable (fst (nth_call call i (remote st0))))
                (S (Backoff.max_retries retry0)))
      as (k & Hk & Hbefore & Hat).
    destruct (fetch_resource_outcome k retry0 st0 Hk Hbefore Hat)
      as (retry' & events & Hfetch & Hinv & _).
    now exists k, retry', events.
Qed.

End FetchResourceFacts.

(** ** Rate-limited failures *)

Lemma anext_started (exponential : nat -> Q) (retry retry' : Backoff.t)
    (slept : option Q) :
  Backoff.anext exponential retry = (Backoff.Continue slept, retry') ->
  Backoff.started retry' = true.
Proof.
  unfold Backoff.anext.
  destruct (Backoff.started retry); cbn;
    [destruct (Backoff.is_depleted retry); [discriminate|]|];
    now intros [= _ <-].
Qed.

(** After a wait was recorded, the next retry the iterator hands out
    sleeps for exactly that wait. *)
Lemma recorded_wait_is_slept (exponential : nat -> Q) (retry : Backoff.t)
    (retry_after : Q) :
  Backoff.started retry = true ->
  Backoff.is_depleted retry = false ->
  exists retry',
    Backoff.anext exponential (Backoff.set_next_backoff retry_after retry)
    = (Backoff.Continue (Some retry_after), retry').
Proof.
  intros Hstarted Hdepleted. unfold Backoff.anext, Backoff.is_depleted in *.
  cbn. rewrite Hstarted, Hdepleted. cbn. now eexists.
Qed.

(** At the last guarded attempt no retry is left: the recorded wait is
    never slept and the unguarded call follows at once. *)
Lemma recorded_wait_dropped_when_depleted {W R : Type} (exponential : nat -> Q)
    (call : W -> result R * W) (retry : Backoff.t) (retry_after : Q)
    (st : @state W) :
  Backoff.started retry = true ->
  Backoff.is_depleted retry = true ->
  fetch_resource_loop exponential call
    (Backoff.set_next_backoff retry_after retry) st
  = (fst (call (remote st)), Backoff.set_next_backoff retry_after retry,
     {| remote := snd (call (remote st)); trace := trace st ++ [Invoked] |}).
Proof.
  intros Hstarted Hdepleted. apply unguarded_attempt.
  unfold Backoff.anext, Backoff.is_depleted in *. cbn.
  now rewrite Hstarted, Hdepleted.
Qed.

Section RateLimited.

Context {W R : Type}.
Variable exponential : nat -> Q.
Variable call : W -> result R * W.

(** C7. A rate-limited failure whose suggested wait exceeds 5 leaves
    [fetch_resource] at once with that very exception: nothing is slept and
    nothing is awaited after the failing invocation.  With a suggested wait
    of at most 5 the wait is recorded in the iterator and the loop goes on;
    the retry the iterator then hands out sleeps for exactly the recorded
    wait.  From the first attempt: a wait of at most 5 followed by a
    successful second invocation gives that value after the events
    invoke, sleep for the wait, invoke; a wait above 5 gives the exception
    after the single event invoke. *)
Theorem rate_limited_failure_handling (exc : exn) (retry_after : Q) :
  rate_limit exc = Some retry_after ->
  (forall (retry retry' : Backoff.t) (slept : option Q) (st : @state W),
     Backoff.anext exponential retry = (Backoff.Continue slept, retry') ->
     fst (call (remote st)) = Raised exc ->
     let st' := {| remote := snd (call (remote st));
                   trace := trace st ++ sleep_events slept ++ [Invoked] |} in
     if Qle_bool retry_after 5 then
       fetch_resource_loop exponential call retry st
       = fetch_resource_loop exponential call
           (Backoff.set_next_backoff retry_after retry') st'
       /\ Backoff.next_backoff (Backoff.set_next_backoff retry_after retry')
          = Some retry_after
       /\ (Backoff.is_depleted retry' = false ->
           exists retry'',
             Backoff.anext exponential (Backoff.set_next_backoff retry_after retry')
             = (Backoff.Continue (Some retry_after), retry''))
     else
       fetch_resource_loop exponential call retry st = (Raised exc, retry', st'))
  /\ (forall (retry : Backoff.t) (st : @state W),
        fst (call (remote st)) = Raised exc ->
        if Qle_bool retry_after 5 then
          (0 < Backoff.max_retries retry)%nat ->
          forall value,
            fst (nth_call call 1 (remote st)) = Returned value ->
            exists retry',
              fetch_resource exponential retry call st
              = (Returned value, retry',
                 {| remote := snd (nth_call call 1 (remote st));
                    trace := trace st ++ [Invoked; Slept retry_after; Invoked] |})
        else
          exists retry',
            fetch_resource exponential retry call st
            = (Raised exc, retry',
               {| remote := snd (call (remote st));
                  trace := trace st ++ [Invoked] |})).
Proof.
  intros Hrate.
  assert (Hretryable : retryable (@Raised R exc) = Qle_bool retry_after 5).
  { destruct exc; cbn in Hrate; try discriminate; now injection Hrate as ->. }
  assert (Hrecord : forall retry,
             record_wait (@Raised R exc) retry
             = Backoff.set_next_backoff retry_after retry).
  { intros retry. cbn. now rewrite Hrate. }
  split.
  - intros retry retry' slept st Hnext Hcall st'.
    pose proof (guarded_attempt exponential call _ _ _ st Hnext) as Hloop.
    cbn zeta in Hloop. rewrite Hcall, Hretryable, Hrecord in Hloop.
    fold st' in Hloop.
    destruct (Qle_bool retry_after 5); [|exact Hloop].
    split; [exact Hloop|]. split; [reflexivity|].
    intros Hdepleted. apply recorded_wait_is_slept; [|exact Hdepleted].
    exact (anext_started _ _ _ _ Hnext).
  - intros retry st Hcall. unfold fetch_resource.
    set (retry0 := Backoff.mk (Backoff.maximum retry) (Backoff.max_retries retry)
                     true 0 None).
    assert (Hnext : Backoff.anext exponential (Backoff.reset retry)
                    = (Backoff.Continue None, retry0)) by reflexivity.
    pose proof (guarded_attempt exponential call _ _ _ st Hnext) as Hloop.
    cbn zeta in Hloop. rewrite Hcall, Hretryable, Hrecord in Hloop.
    rewrite Hloop. clear Hloop.
    destruct (Qle_bool retry_after 5).
    + intros Hmax value Hsecond. cbn in Hsecond.
      set (st' := {| remote := snd (call (remote st));
                     trace := trace st ++ sleep_events None ++ [Invoked] |}).
      set (retry1 := Backoff.mk (Backoff.maximum retry) (Backoff.max_retries retry)
                       true 1 None).
      assert (Hnext' : Backoff.anext exponential
                         (Backoff.set_next_backoff retry_after retry0)
                       = (Backoff.Continue (Some retry_after), retry1)).
      { unfold Backoff.anext, Backoff.is_depleted. cbn.
        destruct (Backoff.max_retries retry) as [|n]; [lia|reflexivity]. }
      pose proof (guarded_attempt exponential call _ _ _ st' Hnext') as Hloop.
      cbn zeta in Hloop. cbn [remote st'] in Hloop.
      rewrite Hsecond in Hloop. cbn [retryable] in Hloop.
      rewrite Hloop. exists retry1. cbn. now rewrite <- !app_assoc.
    + now exists retry0.
Qed.

End RateLimited.

(** ** Scripted endpoints *)

Section ScriptedCall.

Context {W R : Type}.
Variable exponential : nat -> Q.
Variable call : W -> result R * W.

(** [call] answers from the script that [view] reads in the remote state
    and leaves the rest of the script behind with [rebuild]. *)
Variable view : W -> list (result R).
Variable rebuild : list (result R) -> W -> W.
Hypothesis call_answers :
  forall w outcome script,
    view w = outcome :: script -> call w = (outcome, rebuild script w).
Hypothesis view_rebuild : forall script w, view (rebuild script w) = script.
Hypothesis rebuild_rebuild :
  forall script script' w, rebuild script (rebuild script' w) = rebuild script w.

Lemma nth_call_scripted (failures : list (result R)) (outcome : result R)
    (tail : list (result R)) :
  forallb retryable failures = true ->
  forall w,
    view w = failures ++ outcome :: tail ->
    nth_call call (length failures) w = (outcome, rebuild tail w)
    /\ forall i, (i < length failures)%nat ->
                 retryable (fst (nth_call call i w)) = true.
Proof.
  induction failures as [|failure failures IH]; intros Hretryable w Hview.
  - cbn in *. split; [now apply call_answers|]. intros i Hi. lia.
  - cbn in Hretryable. apply andb_prop in Hretryable as [Hfailure Hretryable].
    cbn in Hview. pose proof (call_answers _ _ _ Hview) as Hcall.
    destruct (IH Hretryable (rebuild (failures ++ outcome :: tail) w))
      as [Hlast Hbefore]; [apply view_rebuild|].
    cbn [length nth_call]. rewrite Hcall. cbn [snd fst]. split.
    + now rewrite Hlast, rebuild_rebuild.
    + intros [|i] Hi; cbn [nth_call]; rewrite Hcall; cbn [fst snd].
      * exact Hfailure.
      * apply Hbefore. cbn in Hi. lia.
Qed.

Lemma fetch_resource_scripted (retry : Backoff.t) (failures : list (result R))
    (value : R) (tail : list (result R)) (st : @state W) :
  view (remote st) = failures ++ Returned value :: tail ->
  forallb retryable failures = true ->
  (length failures <= Backoff.max_retries retry)%nat ->
  exists retry' events,
    fetch_resource exponential retry call st
    = (Returned value, retry',
       {| remote := rebuild tail (remote st); trace := trace st ++ events |})
    /\ invocations events = S (length failures)
    /\ Backoff.max_retries retry' = Backoff.max_retries retry.
Proof.
  intros Hview Hretryable Hlength.
  destruct (nth_call_scripted failures (Returned value) tail Hretryable _ Hview)
    as [Hlast Hbefore].
  destruct (fetch_resource_outcome exponential call (length failures) retry st)
    as (retry' & events & Hfetch & Hinv & Hmax & _).
  - lia.
  - exact Hbefore.
  - intros _. now rewrite Hlast.
  - exists retry', events. rewrite Hfetch, Hlast. now repeat split.
Qed.

End ScriptedCall.

(** The three endpoints of the scripted authority. *)

Lemma fetch_guild_scripted (exponential : nat -> Q) (retry : Backoff.t)
    (guild_id : Z) (failures : list (result Guild.t)) (value : Guild.t)
    (tail : list (result Guild.t)) (st : @state Scripted.t) :
  Scripted.guilds (remote st) = failures ++ Returned value :: tail ->
  forallb retryable failures = true ->
  (length failures <= Backoff.max_retries retry)%nat ->
  exists retry' events,
    fetch_resource exponential retry (Scripted.fetch_guild guild_id) st
    = (Returned value, retry',
       {| remote := {| Scripted.guilds := tail;
                       Scripted.roles := Scripted.roles (remote st);
                       Scripted.channels := Scripted.channels (remote st) |};
          trace := trace st ++ events |})
    /\ invocations events = S (length failures)
    /\ Backoff.max_retries retry' = Backoff.max_retries retry.
Proof.
  apply (fetch_resource_scripted exponential (Scripted.fetch_guild guild_id)
           Scripted.guilds
           (fun script w => {| Scripted.guilds := script;
                               Scripted.roles := Scripted.roles w;
                               Scripted.channels := Scripted.channels w |}));
    try reflexivity.
  intros w outcome script Hview. unfold Scripted.fetch_guild. now rewrite Hview.
Qed.

Lemma fetch_roles_scripted (exponential : nat -> Q) (retry : Backoff.t)
    (guild_id : Z) (failures : list (result (list Role.t)))
    (value : list Role.t) (tail : list (result (list Role.t)))
    (st : @state Scripted.t) :
  Scripted.roles (remote st) = failures ++ Returned value :: tail ->
  forallb retryable failures = true ->
  (length failures <= Backoff.max_retries retry)%nat ->
  exists retry' events,
    fetch_resource exponential retry (Scripted.fetch_roles guild_id) st
    = (Returned value, retry',
       {| remote := {| Scripted.guilds := Scripted.guilds (remote st);
                       Scripted.roles := tail;
                       Scripted.channels := Scripted.channels (remote st) |};
          trace := trace st ++ events |})
    /\ invocations events = S (length failures)
    /\ Backoff.max_retries retry' = Backoff.max_retries retry.
Proof.
  apply (fetch_resource_scripted exponential (Scripted.fetch_roles guild_id)
           Scripted.roles
           (fun script w => {| Scripted.guilds := Scripted.guilds w;
                               Scripted.roles := script;
                               Scripted.channels := Scripted.channels w |}));
    try reflexivity.
  intros w outcome script Hview. unfold Scripted.fetch_roles. now rewrite Hview.
Qed.

Lemma fetch_channel_scripted (exponential : nat -> Q) (retry : Backoff.t)
    (channel_id : Z) (failures : list (result PartialChannel))
    (value : PartialChannel) (tail : list (result PartialChannel))
    (st : @state Scripted.t) :
  Scripted.channels (remote st) = failures ++ Returned value :: tail ->
  forallb retryable failures = true ->
  (length failures <= Backoff.max_retries retry)%nat ->
  exists retry' events,
    fetch_resource exponential retry (Scripted.fetch_channel channel_id) st
    = (Returned value, retry',
       {| remote := {| Scripted.guilds := Scripted.guilds (remote st);
                       Scripted.roles := Scripted.roles (remote st);
                       Scripted.channels := tail |};
          trace := trace st ++ events |})
    /\ invocations events = S (length failures)
    /\ Backoff.max_retries retry' = Backoff.max_retries retry.
Proof.
  apply (fetch_resource_scripted exponential (Scripted.fetch_channel channel_id)
           Scripted.channels
           (fun script w => {| Scripted.guilds := Scripted.guilds w;
                               Scripted.roles := Scripted.roles w;
                               Scripted.channels := script |}));
    try reflexivity.
  intros w outcome script Hview. unfold Scripted.fetch_channel. now rewrite Hview.
Qed.

(** ** The fetch orchestrator *)

Section OrchestratorFacts.

Context {W : Type}.
Variable exponential : nat -> Q.
Variable Permissions_members : list Permissions.
Variable ADMINISTRATOR : Permissions.

Local Abbreviation ALL := (ALL_PERMISSIONS Permissions_members).
Local Abbreviation calculate :=
  (calculate_permissions Permissions_members ADMINISTRATOR).
Local Abbreviation fetch :=
  (fetch_permissions exponential Permissions_members ADMINISTRATOR).

(** C3. When the owner of the guild is the member's user,
    [calculate_permissions] returns [ALL_PERMISSIONS] for a member of that
    guild whatever the role mapping and the channel are, and
    [fetch_permissions] returns [ALL_PERMISSIONS] as soon as the guild is
    resolved, from the cache or by a successful remote fetch, in the state
    the resolution of the guild left: neither roles nor channel are
    resolved. *)
Theorem owner_short_circuit (member : Member.t) (guild : Guild.t) :
  Guild.owner_id guild = User.id (Member.user member) ->
  (Member.guild_id member = Guild.id guild ->
   forall (roles : gmap Z Role.t) (channel : option GuildChannel.t),
     calculate member guild roles channel = Returned ALL)
  /\ (forall (client : Client.t W) (channel : option channel_ref) (st : @state W),
        cached_guild client member = Some guild ->
        fetch client member channel st = (Returned ALL, st))
  /\ (forall (client : Client.t W) (channel : option channel_ref)
             (st st' : @state W) (retry' : Backoff.t),
        cached_guild client member = None ->
        fetch_resource exponential (Backoff.new 5 4)
          (Rest.fetch_guild (Client.rest client) (Member.guild_id member)) st
        = (Returned guild, retry', st') ->
        fetch client member channel st = (Returned ALL, st')).
Proof.
  intros Howner. apply Z.eqb_eq in Howner. repeat split.
  - intros Hguild roles channel. unfold calculate_permissions.
    now rewrite (proj2 (Z.eqb_eq _ _) Hguild), Howner.
  - intros client channel st Hcached. unfold fetch_permissions.
    unfold cached_guild in Hcached. rewrite Hcached. cbn. now rewrite Howner.
  - intros client channel st st' retry' Hcached Hfetch. unfold fetch_permissions.
    unfold cached_guild in Hcached. rewrite Hcached, Hfetch. cbn.
    now rewrite Howner.
Qed.

(** The sibling of [calculate_permissions] does compare the guild of the
    channel it was given with the resolved guild. *)
Lemma fetch_permissions_foreign_channel
    (client : Client.t W) (member : Member.t) (guild : Guild.t)
    (cache : Cache.t) (channel : GuildChannel.t) (permissions : Permissions)
    (st : @state W) :
  Client.cache client = Some cache ->
  Cache.get_guild cache (Member.guild_id member) = Some guild ->
  Guild.owner_id guild <> User.id (Member.user member) ->
  Cache.get_roles_view_for_guild cache (Member.guild_id member) <> ∅ ->
  _calculate_role_permissions
    (Cache.get_roles_view_for_guild cache (Member.guild_id member)) member
  = Returned permissions ->
  Z.land permissions ADMINISTRATOR = 0 ->
  GuildChannel.guild_id channel <> Guild.id guild ->
  fetch client member (Some (GuildChannelObject channel)) st
  = (Raised (ValueError "Channel doesn't match up with the member's guild"), st).
Proof.
  intros Hcache Hguild Howner Hview Hroles Hadmin Hchannel.
  unfold fetch_permissions. rewrite Hcache, Hguild. cbn.
  rewrite (proj2 (Z.eqb_neq _ _) Howner). cbn.
  rewrite (bool_decide_eq_false_2 _ Hview). cbn.
  rewrite Hroles, (proj2 (Z.eqb_eq _ _) Hadmin). cbn.
  now rewrite (proj2 (Z.eqb_neq _ _) Hchannel).
Qed.

(** C6. The resolver raises if and only if the mapping has no entry keyed
    by the member's guild id, and what it raises is the [KeyError] of that
    key; so does [calculate_permissions] for a member of the guild who is
    not its owner.  Nothing retries the failure: a [KeyError] raised under
    [fetch_resource] leaves it after the one invocation, and in
    [fetch_permissions] the failure of the resolver ends the call in the
    state the resolution of the roles left. *)
Theorem missing_everyone_role_is_fatal :
  (forall (roles : gmap Z Role.t) (member : Member.t) (exc : exn),
     _calculate_role_permissions roles member = Raised exc <->
     roles !! Member.guild_id member = None
     /\ exc = KeyError (Member.guild_id member))
  /\ (forall (member : Member.t) (guild : Guild.t) (roles : gmap Z Role.t)
             (channel : option GuildChannel.t) (exc : exn),
        Member.guild_id member = Guild.id guild ->
        Guild.owner_id guild <> User.id (Member.user member) ->
        calculate member guild roles channel = Raised exc <->
        roles !! Member.guild_id member = None
        /\ exc = KeyError (Member.guild_id member))
  /\ (forall (R : Type) (call : W -> result R * W) (retry : Backoff.t)
             (st : @state W) (key : Z),
        fst (call (remote st)) = Raised (KeyError key) ->
        exists retry',
          fetch_resource exponential retry call st
          = (Raised (KeyError key), retry',
             {| remote := snd (call (remote st));
                trace := trace st ++ [Invoked] |}))
  /\ (forall (client : Client.t W) (cache : Cache.t) (member : Member.t)
             (guild : Guild.t) (channel : option channel_ref) (st : @state W),
        Client.cache client = Some cache ->
        Cache.get_guild cache (Member.guild_id member) = Some guild ->
        Guild.owner_id guild <> User.id (Member.user member) ->
        Cache.get_roles_view_for_guild cache (Member.guild_id member) <> ∅ ->
        Cache.get_roles_view_for_guild cache (Member.guild_id member)
          !! Member.guild_id member = None ->
        fetch client member channel st
        = (Raised (KeyError (Member.guild_id member)), st)).
Proof.
  split; [|split; [|split]].
  - apply role_permissions_raised.
  - intros member guild roles channel exc Hguild Howner.
    rewrite <- role_permissions_raised. unfold calculate_permissions.
    rewrite (proj2 (Z.eqb_eq _ _) Hguild), (proj2 (Z.eqb_neq _ _) Howner).
    cbn [negb].
    destruct (_calculate_role_permissions roles member) as [permissions|exc'].
    + destruct (negb _); [|destruct channel]; split; discriminate.
    + reflexivity.
  - intros R call retry st key Hcall.
    unfold fetch_resource.
    set (retry0 := Backoff.mk (Backoff.maximum retry) (Backoff.max_retries retry)
                     true 0 None).
    assert (Hnext : Backoff.anext exponential (Backoff.reset retry)
                    = (Backoff.Continue None, retry0)) by reflexivity.
    rewrite (guarded_attempt exponential call _ _ _ st Hnext).
    rewrite Hcall. cbn. now exists retry0.
  - intros client cache member guild channel st Hcache Hguild Howner Hview Hlookup.
    unfold fetch_permissions. rewrite Hcache, Hguild. cbn.
    rewrite (proj2 (Z.eqb_neq _ _) Howner). cbn.
    rewrite (bool_decide_eq_false_2 _ Hview). cbn.
    unfold _calculate_role_permissions. now rewrite Hlookup.
Qed.

End OrchestratorFacts.

(** ** One iterator for three resolutions *)

Lemma reset_forgets (retry : Backoff.t) :
  Backoff.reset retry
  = Backoff.reset (Backoff.new (Backoff.maximum retry) (Backoff.max_retries retry)).
Proof. reflexivity. Qed.

Section SharedBackoff.

Variable exponential : nat -> Q.
Variable Permissions_members : list Permissions.
Variable ADMINISTRATOR : Permissions.

(** C10. [fetch_resource] starts from the reset iterator: its run does not
    depend on what earlier runs left in the iterator, the attempt counter
    is zero before the first attempt, and whatever the state of the
    iterator a call that fails with absorbed outcomes at most
    [max_retries] times and then succeeds is brought to its value.  Hence,
    in one call of [fetch_permissions] against a remote authority where the
    guild, the roles and the channel each fail up to four times before
    they succeed, the three resolutions all succeed on the one shared
    iterator and the permissions of the channel are returned. *)
Theorem fetch_resource_resets_shared_backoff :
  (forall (W R : Type) (call : W -> result R * W) (retry : Backoff.t)
          (st : @state W),
     fetch_resource exponential retry call st
     = fetch_resource exponential
         (Backoff.new (Backoff.maximum retry) (Backoff.max_retries retry)) call st
     /\ Backoff.retries (Backoff.reset retry) = 0%nat
     /\ Backoff.started (Backoff.reset retry) = false
     /\ Backoff.budget (Backoff.reset retry) = S (Backoff.max_retries retry))
  /\ (forall (W R : Type) (call : W -> result R * W) (retry : Backoff.t)
             (st : @state W) (k : nat) (value : R),
        (k <= Backoff.max_retries retry)%nat ->
        (forall i, (i < k)%nat ->
                   retryable (fst (nth_call call i (remote st))) = true) ->
        fst (nth_call call k (remote st)) = Returned value ->
        exists retry' events,
          fetch_resource exponential retry call st
          = (Returned value, retry',
             {| remote := snd (nth_call call k (remote st));
                trace := trace st ++ events |})
          /\ invocations events = S k
          /\ Backoff.max_retries retry' = Backoff.max_retries retry)
  /\ (forall (member : Member.t) (guild : Guild.t) (raw_roles : list Role.t)
             (channel : GuildChannel.t) (channel_id : Z)
             (permissions : Permissions)
             (guild_failures : list (result Guild.t))
             (roles_failures : list (result (list Role.t)))
             (channel_failures : list (result PartialChannel)),
        forallb retryable guild_failures = true ->
        forallb retryable roles_failures = true ->
        forallb retryable channel_failures = true ->
        (length guild_failures <= 4)%nat ->
        (length roles_failures <= 4)%nat ->
        (length channel_failures <= 4)%nat ->
        Guild.owner_id guild <> User.id (Member.user member) ->
        Guild.roles guild = ∅ ->
        _calculate_role_permissions (roles_by_id raw_roles) member
        = Returned permissions ->
        Z.land permissions ADMINISTRATOR = 0 ->
        channel_id <> 0 ->
        GuildChannel.guild_id channel = Guild.id guild ->
        exists events,
          fetch_permissions exponential Permissions_members ADMINISTRATOR
            Scripted.client member (Some (Snowflakeish channel_id))
            {| remote :=
                 {| Scripted.guilds := guild_failures ++ [Returned guild];
                    Scripted.roles := roles_failures ++ [Returned raw_roles];
                    Scripted.channels :=
                      channel_failures ++ [Returned (IsGuildChannel channel)] |};
               trace := [] |}
          = (Returned (_calculate_channel_overwrites Permissions_members channel member permissions),
             {| remote := {| Scripted.guilds := [];
                             Scripted.roles := [];
                             Scripted.channels := [] |};
                trace := events |})
          /\ invocations events
             = (length guild_failures + length roles_failures
                + length channel_failures + 3)%nat).
Proof.
  split; [|split].
  - intros W R call retry st. repeat split.
    unfold Backoff.budget. cbn. lia.
  - intros W R call retry st k value Hk Hbefore Hlast.
    destruct (fetch_resource_outcome exponential call k retry st)
      as (retry' & events & Hfetch & Hinv & Hmax & _).
    + lia.
    + exact Hbefore.
    + intros _. now rewrite Hlast.
    + exists retry', events. now rewrite Hfetch, Hlast.
  - intros member guild raw_roles channel channel_id permissions
      guild_failures roles_failures channel_failures
      Hgf Hrf Hcf Hgl Hrl Hcl Howner Hguild_roles Hroles Hadmin Hid Hchannel.
    unfold fetch_permissions. cbn [Scripted.client Client.cache Client.rest
                                   Scripted.rest Rest.fetch_guild Rest.fetch_roles
                                   Rest.fetch_channel].
    (* the guild *)
    match goal with
    | |- context [fetch_resource _ _ _ ?st] =>
        destruct (fetch_guild_scripted exponential (Backoff.new 5 4)
                    (Member.guild_id member) guild_failures guild [] st
                    eq_refl Hgf Hgl)
          as (retry1 & events1 & Hfetch1 & Hinv1 & Hmax1)
    end.
    rewrite Hfetch1. clear Hfetch1.
    cbn [and_then remote trace Scripted.roles Scripted.channels app].
    rewrite (proj2 (Z.eqb_neq _ _) Howner), Hguild_roles.
    cbn [mapping_truthy]. rewrite bool_decide_eq_true_2 by reflexivity.
    cbn [negb].
    (* the roles *)
    assert (Hrl' : (length roles_failures <= Backoff.max_retries retry1)%nat)
      by (rewrite Hmax1; exact Hrl).
    match goal with
    | |- context [fetch_resource _ _ _ ?st] =>
        destruct (fetch_roles_scripted exponential retry1
                    (Member.guild_id member) roles_failures raw_roles [] st
                    eq_refl Hrf Hrl')
          as (retry2 & events2 & Hfetch2 & Hinv2 & Hmax2)
    end.
    rewrite Hfetch2. clear Hfetch2.
    cbn [and_then remote trace Scripted.guilds Scripted.channels].
    rewrite Hroles, (proj2 (Z.eqb_eq _ _) Hadmin).
    cbn [negb channel_ref_truthy channel_ref_id].
    rewrite (proj2 (Z.eqb_neq _ _) Hid). cbn [negb].
    (* the channel *)
    assert (Hcl' : (length channel_failures <= Backoff.max_retries retry2)%nat)
      by (rewrite Hmax2, Hmax1; exact Hcl).
    match goal with
    | |- context [fetch_resource _ _ _ ?st] =>
        destruct (fetch_channel_scripted exponential retry2
                    channel_id channel_failures (IsGuildChannel channel) [] st
                    eq_refl Hcf Hcl')
          as (retry3 & events3 & Hfetch3 & Hinv3 & Hmax3)
    end.
    rewrite Hfetch3. clear Hfetch3.
    cbn [and_then remote trace Scripted.guilds Scripted.roles].
    rewrite (proj2 (Z.eqb_eq _ _) Hchannel). cbn [negb].
    exists (events1 ++ events2 ++ events3). split.
    + now rewrite <- !app_assoc.
    + rewrite !invocations_app, Hinv1, Hinv2, Hinv3. lia.
Qed.

End SharedBackoff.

(** ** The theorems on the sample data *)

Lemma all_permissions_is_union_witness :
  sample_flags <> []
  /\ flags_disjoint sample_flags = true
  /\ reduce Z.lxor sample_flags = Some (ALL_PERMISSIONS sample_flags)
  /\ ALL_PERMISSIONS sample_flags = combine_all sample_flags
  /\ combine (ALL_PERMISSIONS sample_flags) sample_SEND_MESSAGES
     = ALL_PERMISSIONS sample_flags
  /\ remove (ALL_PERMISSIONS sample_flags) (ALL_PERMISSIONS sample_flags) = NONE.
Proof.
  assert (Hne : sample_flags <> []) by discriminate.
  assert (Hdisjoint : flags_disjoint sample_flags = true) by reflexivity.
  destruct (all_permissions_is_union sample_flags Hne Hdisjoint)
    as (Hreduce & Hunion & _ & Habsorb & Hremove).
  assert (Hin : sample_SEND_MESSAGES ∈ sample_flags)
    by (apply list_elem_of_In; vm_compute; tauto).
  exact (conj Hne (conj Hdisjoint (conj Hreduce (conj Hunion
           (conj (Habsorb _ Hin) Hremove))))).
Defined.

Lemma role_permissions_union_witness :
  sample_roles !! Member.guild_id sample_member
  = Some {| Role.id := 1; Role.permissions := sample_VIEW_CHANNEL |}
  /\ _calculate_role_permissions sample_roles sample_member
     = Returned (combine sample_VIEW_CHANNEL
                   (combine_all (map Role.permissions
                                   (held_roles sample_roles sample_member)))).
Proof.
  split; [reflexivity|].
  exact (proj1 (role_permissions_union sample_roles sample_member
                  {| Role.id := 1; Role.permissions := sample_VIEW_CHANNEL |}
                  eq_refl)).
Defined.

Lemma channel_overwrites_layer_order_witness :
  5 ∈ Member.role_ids sample_member
  /\ forall permissions,
       Z.land (_calculate_channel_overwrites sample_flags sample_channel sample_member permissions)
              sample_SEND_MESSAGES = 0.
Proof.
  assert (Hheld : 5 ∈ Member.role_ids sample_member)
    by (apply list_elem_of_In; cbn; tauto).
  split; [exact Hheld|].
  exact (proj2 (proj2 (proj2 (channel_overwrites_layer_order sample_flags
                                sample_channel sample_member)))
           sample_SEND_MESSAGES 5 eq_refl Hheld eq_refl eq_refl).
Defined.

Lemma administrator_overrides_overwrites_witness :
  Member.guild_id sample_member = Guild.id sample_guild
  /\ sample_admin_roles !! Member.guild_id sample_member
     = Some {| Role.id := 1; Role.permissions := sample_VIEW_CHANNEL |}
  /\ Z.land (combine sample_VIEW_CHANNEL
               (combine_all (map Role.permissions
                               (held_roles sample_admin_roles sample_member))))
            sample_ADMINISTRATOR <> 0
  /\ calculate_permissions sample_flags sample_ADMINISTRATOR
       sample_member sample_guild sample_admin_roles (Some sample_deny_all_channel)
     = Returned (ALL_PERMISSIONS sample_flags).
Proof.
  assert (Hadmin : Z.land (combine sample_VIEW_CHANNEL
                             (combine_all (map Role.permissions
                                             (held_roles sample_admin_roles sample_member))))
                          sample_ADMINISTRATOR <> 0)
    by (vm_compute; discriminate).
  split; [reflexivity|]. split; [reflexivity|]. split; [exact Hadmin|].
  exact (administrator_overrides_overwrites sample_flags sample_ADMINISTRATOR
           sample_member sample_guild sample_admin_roles
           {| Role.id := 1; Role.permissions := sample_VIEW_CHANNEL |}
           eq_refl eq_refl Hadmin (Some sample_deny_all_channel)).
Defined.

Lemma owner_short_circuit_witness :
  Guild.owner_id sample_owned_guild = User.id (Member.user sample_member)
  /\ Member.guild_id sample_member = Guild.id sample_owned_guild
  /\ calculate_permissions sample_flags sample_ADMINISTRATOR
       sample_member sample_owned_guild ∅ (Some sample_deny_all_channel)
     = Returned (ALL_PERMISSIONS sample_flags)
  /\ cached_guild (sample_client sample_owned_guild ∅) sample_member
     = Some sample_owned_guild
  /\ fetch_permissions sample_exponential sample_flags sample_ADMINISTRATOR
       (sample_client sample_owned_guild ∅) sample_member
       (Some (GuildChannelObject sample_deny_all_channel)) sample_idle
     = (Returned (ALL_PERMISSIONS sample_flags), sample_idle).
Proof.
  destruct (owner_short_circuit (W := Scripted.t) sample_exponential sample_flags
              sample_ADMINISTRATOR sample_member sample_owned_guild eq_refl)
    as (Hcalculate & Hcached & _).
  split; [reflexivity|]. split; [reflexivity|]. split; [|split; [reflexivity|]].
  - exact (Hcalculate eq_refl ∅ (Some sample_deny_all_channel)).
  - exact (Hcached (sample_client sample_owned_guild ∅)
             (Some (GuildChannelObject sample_deny_all_channel)) sample_idle eq_refl).
Defined.

Lemma missing_everyone_role_is_fatal_witness :
  sample_roles_without_everyone !! Member.guild_id sample_member = None
  /\ _calculate_role_permissions sample_roles_without_everyone sample_member
     = Raised (KeyError 1)
  /\ calculate_permissions sample_flags sample_ADMINISTRATOR
       sample_member sample_guild sample_roles_without_everyone None
     = Raised (KeyError 1)
  /\ fetch_permissions sample_exponential sample_flags sample_ADMINISTRATOR
       (sample_client sample_guild sample_roles_without_everyone) sample_member
       None sample_idle
     = (Raised (KeyError 1), sample_idle).
Proof.
  destruct (missing_everyone_role_is_fatal (W := Scripted.t) sample_exponential
              sample_flags sample_ADMINISTRATOR)
    as (Hresolver & Hcalculate & _ & Hfetch).
  split; [reflexivity|]. split; [|split].
  - apply Hresolver. now split.
  - apply (Hcalculate sample_member sample_guild); [reflexivity|discriminate|].
    now split.
  - apply (Hfetch _ (sample_cache sample_guild sample_roles_without_everyone)
             sample_member sample_guild);
      [reflexivity|reflexivity|discriminate| |reflexivity].
    intros Hempty.
    apply (f_equal (fun roles : gmap Z Role.t => roles !! 5)) in Hempty.
    vm_compute in Hempty. discriminate Hempty.
Defined.

Lemma rate_limited_failure_handling_witness :
  rate_limit (RateLimitedError 3) = Some 3%Q
  /\ rate_limit (RateLimitedError 10) = Some 10%Q
  /\ (exists retry',
        fetch_resource sample_exponential (Backoff.new 5 4) script_call
          {| remote := [Raised (RateLimitedError 3); Returned 7%nat]; trace := [] |}
        = (Returned 7%nat, retry',
           {| remote := []; trace := [Invoked; Slept 3; Invoked] |}))
  /\ (exists retry',
        fetch_resource sample_exponential (Backoff.new 5 4) script_call
          {| remote := [Raised (RateLimitedError 10); Returned 7%nat]; trace := [] |}
        = (Raised (RateLimitedError 10), retry',
           {| remote := [Returned 7%nat]; trace := [Invoked] |})).
Proof.
  split; [reflexivity|]. split; [reflexivity|]. split.
  - exact (proj2 (rate_limited_failure_handling sample_exponential script_call
                    (RateLimitedError 3) 3 eq_refl)
             (Backoff.new 5 4)
             {| remote := [Raised (RateLimitedError 3); Returned 7%nat]; trace := [] |}
             eq_refl (Nat.lt_0_succ 3) 7%nat eq_refl).
  - exact (proj2 (rate_limited_failure_handling sample_exponential script_call
                    (RateLimitedError 10) 10 eq_refl)
             (Backoff.new 5 4)
             {| remote := [Raised (RateLimitedError 10); Returned 7%nat]; trace := [] |}
             eq_refl).
Defined.

Lemma retries_exhausted_unguarded_call_witness :
  (forall i, (i <= 4)%nat ->
     retryable
       (fst (nth_call script_call i
               [Raised InternalServerError; Raised (RateLimitedError 2);
                Raised InternalServerError; Raised InternalServerError;
                Raised (RateLimitTooLongError 5);
                Raised InternalServerError; Returned 7%nat])) = true)
  /\ exists retry' events,
       fetch_resource sample_exponential (Backoff.new 5 4) script_call
         {| remote :=
              [Raised InternalServerError; Raised (RateLimitedError 2);
               Raised InternalServerError; Raised InternalServerError;
               Raised (RateLimitTooLongError 5);
               Raised InternalServerError; Returned 7%nat];
            trace := [] |}
       = (Raised InternalServerError, retry',
          {| remote := [Returned 7%nat]; trace := events |})
       /\ invocations events = 6%nat.
Proof.
  assert (Habsorbed :
            forall i, (i <= 4)%nat ->
              retryable
                (fst (nth_call script_call i
                        [Raised InternalServerError; Raised (RateLimitedError 2);
                         Raised InternalServerError; Raised InternalServerError;
                         Raised (RateLimitTooLongError 5);
                         Raised InternalServerError; Returned 7%nat])) = true).
  { intros i Hi. do 5 (destruct i as [|i]; [reflexivity|]). lia. }
  split; [exact Habsorbed|].
  exact (proj1 (retries_exhausted_unguarded_call sample_exponential script_call
                  (Backoff.new 5 4)
                  {| remote :=
                       [Raised InternalServerError; Raised (RateLimitedError 2);
                        Raised InternalServerError; Raised InternalServerError;
                        Raised (RateLimitTooLongError 5);
                        Raised InternalServerError; Returned 7%nat];
                     trace := [] |}
                  Habsorbed)).
Defined.

Lemma fetch_resource_resets_shared_backoff_witness :
  forallb retryable (replicate 4 (@Raised Guild.t InternalServerError)) = true
  /\ forallb retryable (replicate 4 (@Raised (list Role.t) (RateLimitedError 2)))
     = true
  /\ forallb retryable (replicate 4 (@Raised PartialChannel InternalServerError))
     = true
  /\ Guild.owner_id sample_guild <> User.id (Member.user sample_member)
  /\ _calculate_role_permissions
       (roles_by_id [ {| Role.id := 1; Role.permissions := sample_VIEW_CHANNEL |};
                      {| Role.id := 5; Role.permissions := sample_SEND_MESSAGES |} ])
       sample_member
     = Returned (Z.lor sample_VIEW_CHANNEL sample_SEND_MESSAGES)
  /\ exists events,
       fetch_permissions sample_exponential sample_flags sample_ADMINISTRATOR
         Scripted.client sample_member (Some (Snowflakeish 7))
         {| remote :=
              {| Scripted.guilds :=
                   replicate 4 (Raised InternalServerError) ++ [Returned sample_guild];
                 Scripted.roles :=
                   replicate 4 (Raised (RateLimitedError 2))
                   ++ [Returned
                         [ {| Role.id := 1; Role.permissions := sample_VIEW_CHANNEL |};
                           {| Role.id := 5; Role.permissions := sample_SEND_MESSAGES |} ]];
                 Scripted.channels :=
                   replicate 4 (Raised InternalServerError)
                   ++ [Returned (IsGuildChannel sample_channel)] |};
            trace := [] |}
       = (Returned (_calculate_channel_overwrites sample_flags sample_channel sample_member
                      (Z.lor sample_VIEW_CHANNEL sample_SEND_MESSAGES)),
          {| remote := remote sample_idle; trace := events |})
       /\ invocations events = 15%nat.
Proof.
  assert (Howner : Guild.owner_id sample_guild <> User.id (Member.user sample_member))
    by discriminate.
  assert (Hid : 7 <> 0) by discriminate.
  split; [reflexivity|]. split; [reflexivity|]. split; [reflexivity|].
  split; [exact Howner|]. split; [reflexivity|].
  exact (proj2 (proj2 (fetch_resource_resets_shared_backoff sample_exponential
                         sample_flags sample_ADMINISTRATOR))
           sample_member sample_guild
           [ {| Role.id := 1; Role.permissions := sample_VIEW_CHANNEL |};
             {| Role.id := 5; Role.permissions := sample_SEND_MESSAGES |} ]
           sample_channel 7 (Z.lor sample_VIEW_CHANNEL sample_SEND_MESSAGES)
           (replicate 4 (Raised InternalServerError))
           (replicate 4 (Raised (RateLimitedError 2)))
           (replicate 4 (Raised InternalServerError))
           eq_refl eq_refl eq_refl
           (le_n 4) (le_n 4) (le_n 4)
           Howner eq_refl eq_refl eq_refl Hid eq_refl).
Defined.

(** On the channel of another guild that [calculate_permissions] accepts,
    [fetch_permissions] raises. *)
Lemma fetch_permissions_rejects_foreign_channel :
  fetch_permissions sample_exponential sample_flags sample_ADMINISTRATOR
    (sample_client sample_guild sample_roles) sample_member
    (Some (GuildChannelObject sample_foreign_channel)) sample_idle
  = (Raised (ValueError "Channel doesn't match up with the member's guild"),
     sample_idle).
Proof. reflexivity. Qed.

(** * Further properties of the module *)

(** ** Overwrite layers, bit by bit *)

Ltac overwrite_bits :=
  repeat first
    [ rewrite channel_overwrites_layers
    | rewrite testbit_apply_known_overwrite
    | rewrite testbit_apply_known_layer
    | rewrite testbit_combine_all_map ].

(** X1. Which overwrite decides a permission: the member-overwrite when it
    allows the permission or, the permission being a known flag, denies it;
    else the overwrites of the held roles when one of them allows it or,
    failing that, one of them denies it; else the everyone-overwrite in the
    same way; else the base permission set.  A bit that no member of the
    enum has is known to no layer: it is in the result only if the last
    layer that is present allows it, the role layer being always present. *)
Theorem channel_overwrites_bit_precedence (Permissions_members : list Permissions)
    (channel : GuildChannel.t) (member : Member.t) (permissions : Permissions)
    (i : Z) :
  let overwrites := GuildChannel.permission_overwrites channel in
  let known := existsb (fun flag => Z.testbit flag i) Permissions_members in
  Z.testbit (_calculate_channel_overwrites Permissions_members channel member
               permissions) i
  = overwrite_bit known (overwrites !! User.id (Member.user member)) i
      (layer_bit known
         (existsb (fun overwrite => Z.testbit (PermissionOverwrite.allow overwrite) i)
                  (held_role_overwrites channel member))
         (existsb (fun overwrite => Z.testbit (PermissionOverwrite.deny overwrite) i)
                  (held_role_overwrites channel member))
         (overwrite_bit known (overwrites !! Member.guild_id member) i
            (Z.testbit permissions i))).
Proof.
  intros overwrites known. subst overwrites known.
  rewrite channel_overwrites_layers.
  rewrite testbit_apply_known_overwrite, testbit_apply_known_layer,
    testbit_apply_known_overwrite, !testbit_combine_all_map.
  change (everything Permissions_members) with (combine_all Permissions_members).
  now rewrite testbit_combine_all.
Qed.

Lemma omap_all_None {A B : Type} (f : A -> option B) (l : list A) :
  (forall x, x ∈ l -> f x = None) -> omap f l = [].
Proof.
  induction l as [|x l IH]; intros Hnone; [reflexivity|].
  cbn. rewrite (Hnone x) by apply list_elem_of_here.
  apply IH. intros y Hy. apply Hnone. now apply list_elem_of_further.
Qed.

(** X2. A channel that has no overwrite for the guild id, for any role id
    of the member and for the user id gives the known flags of the base
    permissions: the role layer, which is always applied, drops every bit
    that no member of the enum has.  A base set of known flags is returned
    as it is. *)
Theorem channel_overwrites_without_match (Permissions_members : list Permissions)
    (channel : GuildChannel.t) (member : Member.t) (permissions : Permissions) :
  let overwrites := GuildChannel.permission_overwrites channel in
  overwrites !! Member.guild_id member = None ->
  (forall role_id, role_id ∈ Member.role_ids member -> overwrites !! role_id = None) ->
  overwrites !! User.id (Member.user member) = None ->
  _calculate_channel_overwrites Permissions_members channel member permissions
  = Z.land permissions (everything Permissions_members)
  /\ (subset permissions (everything Permissions_members) ->
      _calculate_channel_overwrites Permissions_members channel member permissions
      = permissions).
Proof.
  intros overwrites Heveryone Hroles Hmember.
  assert (Hresult :
            _calculate_channel_overwrites Permissions_members channel member permissions
            = Z.land permissions (everything Permissions_members)).
  { rewrite channel_overwrites_layers. fold overwrites.
    rewrite Heveryone, Hmember. unfold held_role_overwrites. fold overwrites.
    rewrite (omap_all_None _ _ Hroles). cbn.
    unfold apply_known_layer, remove, combine, NONE. cbn.
    now rewrite Z.land_m1_r, Z.lor_0_r. }
  split; [exact Hresult|].
  intros Hknown. rewrite Hresult. exact Hknown.
Qed.

(** X3. Resolving the overwrites of a channel on an already resolved
    permission set changes nothing. *)
Theorem channel_overwrites_idempotent (Permissions_members : list Permissions)
    (channel : GuildChannel.t) (member : Member.t) (permissions : Permissions) :
  _calculate_channel_overwrites Permissions_members channel member
    (_calculate_channel_overwrites Permissions_members channel member permissions)
  = _calculate_channel_overwrites Permissions_members channel member permissions.
Proof.
  apply Z.bits_inj'. intros n _. overwrite_bits.
  unfold overwrite_bit, layer_bit.
  destruct (GuildChannel.permission_overwrites channel !! User.id (Member.user member))
    as [member_overwrite|];
    destruct (GuildChannel.permission_overwrites channel !! Member.guild_id member)
      as [everyone_overwrite|];
    repeat match goal with
           | |- context [existsb ?f ?l] => destruct (existsb f l)
           | |- context [Z.testbit ?x n] => destruct (Z.testbit x n)
           end; reflexivity.
Qed.

(** X4. The resolver is monotone in the base permissions: a larger base
    set never resolves to fewer permissions. *)
Theorem channel_overwrites_monotone (Permissions_members : list Permissions)
    (channel : GuildChannel.t) (member : Member.t) (smaller larger : Permissions) :
  subset smaller larger ->
  subset (_calculate_channel_overwrites Permissions_members channel member smaller)
         (_calculate_channel_overwrites Permissions_members channel member larger).
Proof.
  rewrite !subset_testbit. intros Hsubset i. overwrite_bits.
  specialize (Hsubset i). unfold overwrite_bit, layer_bit.
  destruct (GuildChannel.permission_overwrites channel !! User.id (Member.user member))
    as [member_overwrite|];
    destruct (GuildChannel.permission_overwrites channel !! Member.guild_id member)
      as [everyone_overwrite|];
    destruct (Z.testbit smaller i); try rewrite (Hsubset eq_refl);
    repeat match goal with
           | |- context [existsb ?f ?l] => destruct (existsb f l)
           | |- context [Z.testbit ?x i] => destruct (Z.testbit x i)
           end; cbn; congruence.
Qed.

Lemma combine_all_subset (smaller larger : list Permissions) :
  (forall flag, flag ∈ smaller -> flag ∈ larger) ->
  subset (combine_all smaller) (combine_all larger).
Proof.
  intros Hincl. apply subset_testbit. intros i.
  rewrite !testbit_combine_all_true. intros (flag & Hin & Hbit).
  exists flag. split; [now apply Hincl|exact Hbit].
Qed.

Lemma combine_all_same_members (l1 l2 : list Permissions) :
  (forall flag, flag ∈ l1 <-> flag ∈ l2) -> combine_all l1 = combine_all l2.
Proof.
  intros Hsame. apply Z.bits_inj'. intros n _.
  apply eq_true_iff_eq. rewrite !testbit_combine_all_true.
  split; intros (flag & Hin & Hbit); exists flag; (split; [|exact Hbit]);
    now apply Hsame.
Qed.

(** X5. Only the set of role ids of the member matters to the overwrite
    resolver, neither their order nor their repetitions. *)
Theorem channel_overwrites_role_ids_as_set (Permissions_members : list Permissions)
    (channel : GuildChannel.t) (member member' : Member.t)
    (permissions : Permissions) :
  Member.user member = Member.user member' ->
  Member.guild_id member = Member.guild_id member' ->
  (forall role_id,
     role_id ∈ Member.role_ids member <-> role_id ∈ Member.role_ids member') ->
  _calculate_channel_overwrites Permissions_members channel member permissions
  = _calculate_channel_overwrites Permissions_members channel member' permissions.
Proof.
  intros Huser Hguild Hroles. rewrite !channel_overwrites_layers.
  rewrite Huser, Hguild.
  assert (Hheld : forall overwrite,
             overwrite ∈ held_role_overwrites channel member <->
             overwrite ∈ held_role_overwrites channel member').
  { intros overwrite. unfold held_role_overwrites.
    rewrite !list_elem_of_omap.
    split; intros (role_id & Hin & Hlookup); exists role_id;
      (split; [now apply Hroles|exact Hlookup]). }
  assert (Hunion : forall field : PermissionOverwrite.t -> Permissions,
             combine_all (map field (held_role_overwrites channel member))
             = combine_all (map field (held_role_overwrites channel member'))).
  { intros field. apply combine_all_same_members. intros flag.
    rewrite !list_elem_of_fmap.
    split; intros (overwrite & -> & Hin); exists overwrite;
      (split; [reflexivity|now apply Hheld]). }
  now rewrite !Hunion.
Qed.

(** ** Role permissions and the calculator *)

Lemma held_roles_incl (roles : gmap Z Role.t) (member member' : Member.t) :
  Member.guild_id member = Member.guild_id member' ->
  (forall role_id,
     role_id ∈ Member.role_ids member -> role_id ∈ Member.role_ids member') ->
  forall flag,
    flag ∈ map Role.permissions (held_roles roles member) ->
    flag ∈ map Role.permissions (held_roles roles member').
Proof.
  intros Hguild Hroles flag. unfold held_roles. rewrite !list_elem_of_fmap.
  intros (role & -> & Hin). exists role. split; [reflexivity|].
  rewrite list_elem_of_filter, list_elem_of_omap in *.
  destruct Hin as (Hid & role_id & Hin & Hlookup). split; [congruence|].
  exists role_id. split; [now apply Hroles|exact Hlookup].
Qed.

(** X6. Only the set of role ids of the member matters to the role
    resolver, neither their order nor their repetitions; this includes the
    case where it raises. *)
Theorem role_permissions_role_ids_as_set
    (roles : gmap Z Role.t) (member member' : Member.t) :
  Member.guild_id member = Member.guild_id member' ->
  (forall role_id,
     role_id ∈ Member.role_ids member <-> role_id ∈ Member.role_ids member') ->
  _calculate_role_permissions roles member
  = _calculate_role_permissions roles member'.
Proof.
  intros Hguild Hroles.
  destruct (roles !! Member.guild_id member) as [everyone|] eqn:Heveryone.
  - rewrite (role_permissions_returned _ _ _ Heveryone).
    rewrite Hguild in Heveryone.
    rewrite (role_permissions_returned _ _ _ Heveryone).
    do 2 f_equal. apply combine_all_same_members. intros flag.
    split; apply held_roles_incl; try congruence; intros role_id; apply Hroles.
  - unfold _calculate_role_permissions. rewrite <- Hguild, Heveryone.
    reflexivity.
Qed.

(** X7. Holding more roles never gives fewer role permissions. *)
Theorem role_permissions_monotone
    (roles : gmap Z Role.t) (member member' : Member.t)
    (permissions permissions' : Permissions) :
  Member.guild_id member = Member.guild_id member' ->
  (forall role_id,
     role_id ∈ Member.role_ids member -> role_id ∈ Member.role_ids member') ->
  _calculate_role_permissions roles member = Returned permissions ->
  _calculate_role_permissions roles member' = Returned permissions' ->
  subset permissions permissions'.
Proof.
  intros Hguild Hroles Hless Hmore.
  destruct (roles !! Member.guild_id member) as [everyone|] eqn:Heveryone.
  - rewrite (role_permissions_returned _ _ _ Heveryone) in Hless.
    rewrite Hguild in Heveryone.
    rewrite (role_permissions_returned _ _ _ Heveryone) in Hmore.
    injection Hless as <-. injection Hmore as <-.
    pose proof (combine_all_subset _ _ (held_roles_incl roles _ _ Hguild Hroles))
      as Hsubset.
    rewrite subset_testbit in *. intros i. unfold combine at 1 2.
    rewrite !Z.lor_spec, !orb_true_iff. intros [Hbit|Hbit]; [now left|right].
    now apply Hsubset.
  - unfold _calculate_role_permissions in Hless. now rewrite Heveryone in Hless.
Qed.

Section CalculatorErrors.

Variable Permissions_members : list Permissions.
Variable ADMINISTRATOR : Permissions.

(** X8. [calculate_permissions] raises in two cases only: a [ValueError]
    when the member is of another guild, whoever owns the guild, and
    otherwise the [KeyError] of the guild id when the member is not the
    owner and the role mapping lacks the everyone-role. *)
Theorem calculate_permissions_raises_iff
    (member : Member.t) (guild : Guild.t) (roles : gmap Z Role.t)
    (channel : option GuildChannel.t) (exc : exn) :
  calculate_permissions Permissions_members ADMINISTRATOR member guild roles channel
  = Raised exc
  <-> (Member.guild_id member <> Guild.id guild
       /\ exc = ValueError "Member object isn't from the provided guild")
      \/ (Member.guild_id member = Guild.id guild
          /\ Guild.owner_id guild <> User.id (Member.user member)
          /\ roles !! Member.guild_id member = None
          /\ exc = KeyError (Member.guild_id member)).
Proof.
  unfold calculate_permissions.
  destruct (Z.eqb_spec (Member.guild_id member) (Guild.id guild)) as [Hguild|Hguild];
    cbn [negb].
  - destruct (Z.eqb_spec (Guild.owner_id guild) (User.id (Member.user member)))
      as [Howner|Howner].
    + split; [discriminate|]. intros [[Hne _]|(_ & Hne & _)]; contradiction.
    + destruct (_calculate_role_permissions roles member) as [permissions|exc']
        eqn:Hroles.
      * split.
        -- destruct (negb _); [|destruct channel]; discriminate.
        -- intros [[Hne _]|(_ & _ & Hnone & _)]; [contradiction|].
           unfold _calculate_role_permissions in Hroles.
           now rewrite Hnone in Hroles.
      * apply role_permissions_raised in Hroles as [Hnone ->]. split.
        -- intros [= <-]. right. now repeat split.
        -- intros [[Hne _]|(_ & _ & _ & ->)]; [contradiction|reflexivity].
  - split.
    + intros [= <-]. left. now split.
    + intros [[_ ->]|[Heq _]]; [reflexivity|contradiction].
Qed.

End CalculatorErrors.

(** ** The constant [ALL_PERMISSIONS] without disjointness *)

Lemma testbit_fold_lxor (rest : list Permissions) (first : Permissions) (i : Z) :
  Z.testbit (fold_left Z.lxor rest first) i
  = xorb (Z.testbit first i)
         (Nat.odd (length (List.filter (fun flag => Z.testbit flag i) rest))).
Proof.
  revert first. induction rest as [|flag rest IH]; intros first.
  - cbn. now rewrite xorb_false_r.
  - change (fold_left Z.lxor (flag :: rest) first)
      with (fold_left Z.lxor rest (Z.lxor first flag)).
    rewrite IH, Z.lxor_spec. cbn [List.filter].
    destruct (Z.testbit flag i); cbn [length].
    + rewrite Nat.odd_succ, <- Nat.negb_odd.
      now destruct (Z.testbit first i), (Nat.odd _).
    + now rewrite xorb_false_r.
Qed.

(** X9. Whatever the members of the enum are, a bit is set in
    [ALL_PERMISSIONS] exactly when an odd number of members have it set:
    a bit that two members share is lost, and the order of the members is
    irrelevant. *)
Theorem all_permissions_bit_parity (flags : list Permissions) (i : Z) :
  Z.testbit (ALL_PERMISSIONS flags) i
  = Nat.odd (length (List.filter (fun flag => Z.testbit flag i) flags)).
Proof.
  unfold ALL_PERMISSIONS. destruct flags as [|first rest].
  - cbn. apply Z.bits_0.
  - change (default NONE (reduce Z.lxor (first :: rest)))
      with (fold_left Z.lxor rest first).
    rewrite testbit_fold_lxor. cbn [List.filter].
    destruct (Z.testbit first i); cbn [length xorb].
    + now rewrite Nat.odd_succ, <- Nat.negb_odd.
    + reflexivity.
Qed.

(** ** The mapping built from fetched roles *)

Lemma roles_by_id_snoc (raw_roles : list Role.t) (role : Role.t) :
  roles_by_id (raw_roles ++ [role])
  = <[Role.id role := role]> (roles_by_id raw_roles).
Proof. unfold roles_by_id. now rewrite fold_left_app. Qed.

(** X10. The mapping built from the fetched roles is keyed by role id:
    what is found under a key is a fetched role with that id, every fetched
    role has its id in the mapping, and of two fetched roles with the same
    id the later one is kept. *)
Theorem roles_by_id_keyed (raw_roles : list Role.t) :
  (forall key role,
     roles_by_id raw_roles !! key = Some role ->
     Role.id role = key /\ role ∈ raw_roles)
  /\ (forall role, role ∈ raw_roles ->
        is_Some (roles_by_id raw_roles !! Role.id role))
  /\ (forall later role,
        roles_by_id (raw_roles ++ role :: later) !! Role.id role = Some role
        \/ exists role', role' ∈ later /\ Role.id role' = Role.id role).
Proof.
  split; [|split].
  - induction raw_roles as [|last raw_roles IH] using rev_ind; intros key role.
    + unfold roles_by_id. cbn. now rewrite lookup_empty.
    + rewrite roles_by_id_snoc, lookup_insert.
      destruct (decide (Role.id last = key)) as [<-|Hne].
      * intros [= <-]. split; [reflexivity|].
        apply elem_of_app. right. apply list_elem_of_here.
      * intros Hlookup. destruct (IH _ _ Hlookup) as [Hid Hin].
        split; [exact Hid|]. apply elem_of_app. now left.
  - induction raw_roles as [|last raw_roles IH] using rev_ind; intros role Hin.
    + now apply not_elem_of_nil in Hin.
    + rewrite roles_by_id_snoc, lookup_insert.
      destruct (decide (Role.id last = Role.id role)) as [Heq|Hne]; [now eexists|].
      apply IH. apply elem_of_app in Hin as [Hin|Hin]; [exact Hin|].
      apply elem_of_cons in Hin as [->|Hin]; [congruence|].
      now apply not_elem_of_nil in Hin.
  - intros later role.
    induction later as [|last later IH] using rev_ind.
    + left. rewrite roles_by_id_snoc. apply lookup_insert_eq.
    + destruct (decide (Role.id last = Role.id role)) as [Heq|Hne].
      * right. exists last. split; [|exact Heq].
        apply elem_of_app. right. apply list_elem_of_here.
      * destruct IH as [IH|(role' & Hin & Hid)].
        -- left. rewrite app_comm_cons, app_assoc, roles_by_id_snoc.
           now rewrite lookup_insert_ne.
        -- right. exists role'. split; [|exact Hid].
           apply elem_of_app. now left.
Qed.

(** ** More on the retry loop *)

Lemma sleeps_app (events events' : list event) :
  sleeps (events ++ events') = sleeps events ++ sleeps events'.
Proof.
  induction events as [|[|duration] events IH]; cbn; [reflexivity|exact IH|].
  now rewrite IH.
Qed.

Lemma record_wait_retries {R : Type} (outcome : result R) (retry : Backoff.t) :
  Backoff.retries (record_wait outcome retry) = Backoff.retries retry.
Proof.
  destruct outcome as [value|exc]; [reflexivity|].
  cbn. now destruct (rate_limit exc).
Qed.

(** A wait that the handlers recorded is within the ceiling. *)
Lemma record_wait_within_ceiling {R : Type} (outcome : result R)
    (retry : Backoff.t) :
  retryable outcome = true ->
  (forall wait, Backoff.next_backoff retry = Some wait -> Qle_bool wait 5 = true) ->
  forall wait,
    Backoff.next_backoff (record_wait outcome retry) = Some wait ->
    Qle_bool wait 5 = true.
Proof.
  intros Hretryable Hretry wait.
  destruct outcome as [value|exc]; [discriminate|].
  destruct exc; cbn in *; try (apply Hretry); now intros [= <-].
Qed.

Section RetryLoopBounds.

Context {W R : Type}.
Variable exponential : nat -> Q.
Variable call : W -> result R * W.

(** X11. An outcome of the first attempt that the loop does not absorb, a
    value or an exception other than a transient-server failure and a
    rate-limited failure within the ceiling, is the result of
    [fetch_resource]: the call was awaited once, nothing was slept and no
    retry was counted, whatever state the iterator was in. *)
Theorem fetch_resource_first_attempt_decides
    (retry : Backoff.t) (st : @state W) :
  retryable (fst (call (remote st))) = false ->
  exists retry',
    fetch_resource exponential retry call st
    = (fst (call (remote st)), retry',
       {| remote := snd (call (remote st)); trace := trace st ++ [Invoked] |})
    /\ Backoff.retries retry' = 0%nat.
Proof.
  intros Hfinal. unfold fetch_resource.
  set (retry0 := Backoff.mk (Backoff.maximum retry) (Backoff.max_retries retry)
                   true 0 None).
  assert (Hnext : Backoff.anext exponential (Backoff.reset retry)
                  = (Backoff.Continue None, retry0)) by reflexivity.
  rewrite (guarded_attempt exponential call _ _ _ st Hnext), Hfinal.
  exists retry0. now split.
Qed.

Lemma loop_sleeps (b : nat) :
  forall (retry : Backoff.t) (st : @state W),
    Backoff.budget retry = b ->
    (forall wait, Backoff.next_backoff retry = Some wait -> Qle_bool wait 5 = true) ->
    exists events,
      trace (snd (fetch_resource_loop exponential call retry st))
      = trace st ++ events
      /\ (length (sleeps events)
          <= Backoff.max_retries retry - Backoff.retries retry)%nat
      /\ Forall (fun wait =>
                   Qle_bool wait 5 = true
                   \/ exists n, (n < Backoff.max_retries retry)%nat
                                /\ wait = exponential n)
                (sleeps events).
Proof.
  induction b as [|b IH]; intros retry st Hbudget Hwait.
  - destruct (anext_depleted exponential retry Hbudget) as [Hnext _].
    rewrite (unguarded_attempt exponential call _ _ Hnext).
    exists [Invoked]. cbn. repeat split; [lia|constructor].
  - destruct retry as [maximum max_retries started retries next_backoff].
    unfold Backoff.budget in Hbudget. cbn in Hbudget, Hwait |- *.
    destruct started.
    + (* a retry: the iterator sleeps, then the body runs *)
      set (wait := match next_backoff with
                   | Some backoff_ => backoff_
                   | None => exponential retries
                   end).
      set (retry' := Backoff.mk maximum max_retries true (S retries) None).
      assert (Hnext : Backoff.anext exponential
                        (Backoff.mk maximum max_retries true retries next_backoff)
                      = (Backoff.Continue (Some wait), retry')).
      { unfold Backoff.anext, Backoff.is_depleted. cbn.
        assert (E : (max_retries <=? retries)%nat = false)
          by (apply Nat.leb_gt; lia).
        now rewrite E. }
      assert (Hok : Qle_bool wait 5 = true
                    \/ exists n, (n < max_retries)%nat /\ wait = exponential n).
      { subst wait. destruct next_backoff as [backoff_|].
        - left. now apply Hwait.
        - right. exists retries. split; [lia|reflexivity]. }
      rewrite (guarded_attempt exponential call _ _ _ st Hnext).
      set (outcome := fst (call (remote st))).
      destruct (retryable outcome) eqn:Hretryable.
      * destruct (record_wait_budget outcome retry') as (Hrb & Hrmax & _).
        pose proof (record_wait_retries outcome retry') as Hrr.
        match goal with
        | |- context [fetch_resource_loop _ _ ?r ?s] =>
            destruct (IH r s) as (events & Htrace & Hlength & Hall)
        end.
        -- rewrite Hrb. unfold Backoff.budget. cbn. lia.
        -- apply record_wait_within_ceiling; [exact Hretryable|]. discriminate.
        -- rewrite Hrmax, Hrr in Hlength. rewrite Hrmax in Hall. cbn in Hlength, Hall.
           exists ([Slept wait; Invoked] ++ events).
           rewrite Htrace. cbn [trace]. rewrite <- !app_assoc.
           split; [reflexivity|]. rewrite sleeps_app. cbn.
           split; [lia|]. now constructor.
      * exists [Slept wait; Invoked]. cbn. repeat split; [lia|].
        constructor; [exact Hok|constructor].
    + (* the first iteration: the body runs at once *)
      set (retry' := Backoff.mk maximum max_retries true retries next_backoff).
      assert (Hnext : Backoff.anext exponential
                        (Backoff.mk maximum max_retries false retries next_backoff)
                      = (Backoff.Continue None, retry')) by reflexivity.
      rewrite (guarded_attempt exponential call _ _ _ st Hnext).
      set (outcome := fst (call (remote st))).
      destruct (retryable outcome) eqn:Hretryable.
      * destruct (record_wait_budget outcome retry') as (Hrb & Hrmax & _).
        pose proof (record_wait_retries outcome retry') as Hrr.
        match goal with
        | |- context [fetch_resource_loop _ _ ?r ?s] =>
            destruct (IH r s) as (events & Htrace & Hlength & Hall)
        end.
        -- rewrite Hrb. unfold Backoff.budget. cbn. lia.
        -- apply record_wait_within_ceiling; [exact Hretryable|exact Hwait].
        -- rewrite Hrmax, Hrr in Hlength. rewrite Hrmax in Hall. cbn in Hlength, Hall.
           exists ([Invoked] ++ events).
           rewrite Htrace. cbn [trace sleep_events]. rewrite <- !app_assoc.
           split; [reflexivity|]. rewrite sleeps_app. cbn.
           split; [exact Hlength|exact Hall].
      * exists [Invoked]. cbn. repeat split; [lia|constructor].
Qed.

(** X12. One run of [fetch_resource] sleeps at most [max_retries] times,
    and every sleep lasts either a wait recorded from a rate-limited
    failure, which is at most 5, or a wait of the iterator's own schedule. *)
Theorem fetch_resource_sleeps_bounded (retry : Backoff.t) (st : @state W) :
  exists events,
    trace (snd (fetch_resource exponential retry call st)) = trace st ++ events
    /\ (length (sleeps events) <= Backoff.max_retries retry)%nat
    /\ Forall (fun wait =>
                 Qle_bool wait 5 = true
                 \/ exists n, (n < Backoff.max_retries retry)%nat
                              /\ wait = exponential n)
              (sleeps events).
Proof.
  unfold fetch_resource.
  destruct (loop_sleeps (S (Backoff.max_retries retry)) (Backoff.reset retry) st)
    as (events & Htrace & Hlength & Hall).
  - unfold Backoff.budget. cbn. lia.
  - discriminate.
  - exists events. cbn in Hlength, Hall. split; [exact Htrace|].
    split; [lia|exact Hall].
Qed.

End RetryLoopBounds.

(** ** More on the fetch orchestrator *)

Section OrchestratorPaths.

Context {W : Type}.
Variable exponential : nat -> Q.
Variable Permissions_members : list Permissions.
Variable ADMINISTRATOR : Permissions.

Local Abbreviation ALL := (ALL_PERMISSIONS Permissions_members).
Local Abbreviation calculate :=
  (calculate_permissions Permissions_members ADMINISTRATOR).
Local Abbreviation fetch :=
  (fetch_permissions exponential Permissions_members ADMINISTRATOR).

(** What the guild of the channel is compared with, once the channel is
    resolved. *)
Local Abbreviation checked guild member permissions found_channel :=
  (if negb (GuildChannel.guild_id found_channel =? Guild.id guild)
   then Raised (ValueError "Channel doesn't match up with the member's guild")
   else Returned (_calculate_channel_overwrites Permissions_members found_channel member permissions)).

(** With the guild and a non-empty role view in the cache, the call is the
    rest of the function on the cached entities. *)
Lemma fetch_permissions_cached_entities
    (client : Client.t W) (cache : Cache.t) (member : Member.t)
    (guild : Guild.t) (channel : option channel_ref) (st : @state W) :
  Client.cache client = Some cache ->
  Cache.get_guild cache (Member.guild_id member) = Some guild ->
  Cache.get_roles_view_for_guild cache (Member.guild_id member) <> ∅ ->
  fetch client member channel st
  = if Guild.owner_id guild =? User.id (Member.user member) then (Returned ALL, st)
    else
      match _calculate_role_permissions
              (Cache.get_roles_view_for_guild cache (Member.guild_id member))
              member with
      | Raised exc => (Raised exc, st)
      | Returned permissions =>
          if negb (Z.land permissions ADMINISTRATOR =? 0) then (Returned ALL, st)
          else
            match channel with
            | None => (Returned permissions, st)
            | Some channel =>
                if negb (channel_ref_truthy channel) then (Returned permissions, st)
                else
                  match cached_channel client channel with
                  | Some found_channel =>
                      (checked guild member permissions found_channel, st)
                  | None =>
                      match fetch_resource exponential (Backoff.new 5 4)
                              (Rest.fetch_channel (Client.rest client)
                                 (channel_ref_id channel)) st with
                      | (Returned (IsGuildChannel raw_channel), _, st') =>
                          (checked guild member permissions raw_channel, st')
                      | (Returned (IsDMChannel _), _, st') =>
                          (Raised (AssertionError
                                     "Cannot perform operation on a DM channel."),
                           st')
                      | (Raised exc, _, st') => (Raised exc, st')
                      end
                  end
            end
      end.
Proof.
  intros Hcache Hguild Hview. unfold fetch_permissions, cached_channel.
  rewrite Hcache, Hguild. cbn [and_then].
  destruct (Guild.owner_id guild =? User.id (Member.user member)); [reflexivity|].
  cbn [mapping_truthy]. rewrite (bool_decide_eq_false_2 _ Hview). cbn [negb and_then].
  destruct (_calculate_role_permissions _ member) as [permissions|exc];
    [|reflexivity].
  destruct (negb (Z.land permissions ADMINISTRATOR =? 0)); [reflexivity|].
  destruct channel as [channel|]; [|reflexivity].
  destruct (negb (channel_ref_truthy channel)); [reflexivity|].
  destruct channel as [found_channel|id|id]; cbn [channel_ref_id and_then].
  - now destruct (negb _).
  - destruct (Cache.get_guild_channel cache id) as [found_channel|];
      cbn [and_then].
    + now destruct (negb _).
    + destruct (fetch_resource _ _ _ _) as [[[[raw_channel|id']|exc] retry'] st'];
        cbn [and_then]; try reflexivity. now destruct (negb _).
  - destruct (Cache.get_guild_channel cache id) as [found_channel|];
      cbn [and_then].
    + now destruct (negb _).
    + destruct (fetch_resource _ _ _ _) as [[[[raw_channel|id']|exc] retry'] st'];
        cbn [and_then]; try reflexivity. now destruct (negb _).
Qed.

(** X13. When the cache has the guild of the member, a non-empty role view
    and the channel, or the caller passed the channel object, and both
    belong together, [fetch_permissions] is [calculate_permissions] on the
    cached entities, failure included, and leaves the state untouched: no
    remote call is made and nothing is slept. *)
Theorem fetch_permissions_cached_is_calculate
    (client : Client.t W) (cache : Cache.t) (member : Member.t)
    (guild : Guild.t) (st : @state W) :
  Client.cache client = Some cache ->
  Cache.get_guild cache (Member.guild_id member) = Some guild ->
  Member.guild_id member = Guild.id guild ->
  Cache.get_roles_view_for_guild cache (Member.guild_id member) <> ∅ ->
  let roles := Cache.get_roles_view_for_guild cache (Member.guild_id member) in
  fetch client member None st = (calculate member guild roles None, st)
  /\ forall (channel : channel_ref) (found_channel : GuildChannel.t),
       channel_ref_truthy channel = true ->
       cached_channel client channel = Some found_channel ->
       GuildChannel.guild_id found_channel = Guild.id guild ->
       fetch client member (Some channel) st
       = (calculate member guild roles (Some found_channel), st).
Proof.
  intros Hcache Hguild Hmember Hview roles.
  unfold calculate_permissions. rewrite (proj2 (Z.eqb_eq _ _) Hmember). cbn [negb].
  split.
  - rewrite (fetch_permissions_cached_entities _ _ _ _ _ _ Hcache Hguild Hview).
    fold roles.
    destruct (Guild.owner_id guild =? User.id (Member.user member)); [reflexivity|].
    destruct (_calculate_role_permissions roles member) as [permissions|exc];
      [|reflexivity].
    now destruct (negb _).
  - intros channel found_channel Htruthy Hfound Hchannel.
    rewrite (fetch_permissions_cached_entities _ _ _ _ _ _ Hcache Hguild Hview).
    fold roles. rewrite Htruthy, Hfound, (proj2 (Z.eqb_eq _ _) Hchannel).
    cbn [negb].
    destruct (Guild.owner_id guild =? User.id (Member.user member)); [reflexivity|].
    destruct (_calculate_role_permissions roles member) as [permissions|exc];
      [|reflexivity].
    now destruct (negb _).
Qed.

(** Once guild and roles are resolved, from the cache or fetched, for a
    member who is neither owner nor administrator, a call with a channel
    is the channel stage: the channel of the caller or of the cache, or
    else the fetched one, with the retry object and in the state the
    resolution of the roles left. *)
Lemma fetch_permissions_channel_stage
    (client : Client.t W) (member : Member.t) (guild : Guild.t)
    (guild_roles : option (gmap Z Role.t)) (roles : gmap Z Role.t)
    (permissions : Permissions) (channel : channel_ref)
    (st st1 st2 : @state W) (retry1 retry2 : Backoff.t) :
  resolve_guild exponential client member st
  = (Returned (guild, guild_roles), retry1, st1) ->
  Guild.owner_id guild <> User.id (Member.user member) ->
  resolve_roles exponential client member guild_roles retry1 st1
  = (Returned roles, retry2, st2) ->
  _calculate_role_permissions roles member = Returned permissions ->
  Z.land permissions ADMINISTRATOR = 0 ->
  channel_ref_truthy channel = true ->
  fetch client member (Some channel) st
  = match cached_channel client channel with
    | Some found_channel => (checked guild member permissions found_channel, st2)
    | None =>
        match fetch_resource exponential retry2
                (Rest.fetch_channel (Client.rest client) (channel_ref_id channel))
                st2 with
        | (Returned (IsGuildChannel raw_channel), _, st3) =>
            (checked guild member permissions raw_channel, st3)
        | (Returned (IsDMChannel _), _, st3) =>
            (Raised (AssertionError "Cannot perform operation on a DM channel."),
             st3)
        | (Raised exc, _, st3) => (Raised exc, st3)
        end
    end.
Proof.
  intros Hguild Howner Hroles Hpermissions Hadmin Htruthy.
  unfold resolve_guild, cached_guild in Hguild. unfold resolve_roles in Hroles.
  unfold fetch_permissions. rewrite Hguild. cbn [and_then].
  rewrite (proj2 (Z.eqb_neq _ _) Howner), Hroles. cbn [and_then].
  rewrite Hpermissions, (proj2 (Z.eqb_eq _ _) Hadmin), Htruthy. cbn [negb].
  unfold cached_channel.
  destruct channel as [given| |];
    repeat match goal with
      | |- context [match ?c with _ => _ end] =>
          lazymatch c with
          | negb _ => fail
          | _ => destruct c eqn:?
          end
      end; cbn [and_then]; try reflexivity;
    now destruct (negb _).
Qed.

(** X14. Once the channel stage is reached (guild and roles are resolved,
    from the cache or fetched, the member is neither owner nor
    administrator and a channel is asked for), a channel of another guild
    is refused with a [ValueError], whether it came from the caller, from
    the cache or from the remote authority, and a channel of the guild
    gives the resolved overwrites. *)
Theorem fetch_permissions_validates_channel_guild
    (client : Client.t W) (member : Member.t) (guild : Guild.t)
    (guild_roles : option (gmap Z Role.t)) (roles : gmap Z Role.t)
    (permissions : Permissions) (channel : channel_ref)
    (st st1 st2 : @state W) (retry1 retry2 : Backoff.t) :
  resolve_guild exponential client member st
  = (Returned (guild, guild_roles), retry1, st1) ->
  Guild.owner_id guild <> User.id (Member.user member) ->
  resolve_roles exponential client member guild_roles retry1 st1
  = (Returned roles, retry2, st2) ->
  _calculate_role_permissions roles member = Returned permissions ->
  Z.land permissions ADMINISTRATOR = 0 ->
  channel_ref_truthy channel = true ->
  (forall found_channel,
     cached_channel client channel = Some found_channel ->
     fetch client member (Some channel) st
     = (if GuildChannel.guild_id found_channel =? Guild.id guild
        then Returned (_calculate_channel_overwrites Permissions_members found_channel member permissions)
        else Raised (ValueError "Channel doesn't match up with the member's guild"),
        st2))
  /\ (forall raw_channel retry3 st3,
        cached_channel client channel = None ->
        fetch_resource exponential retry2
          (Rest.fetch_channel (Client.rest client) (channel_ref_id channel)) st2
        = (Returned (IsGuildChannel raw_channel), retry3, st3) ->
        fetch client member (Some channel) st
        = (if GuildChannel.guild_id raw_channel =? Guild.id guild
           then Returned (_calculate_channel_overwrites Permissions_members raw_channel member permissions)
           else Raised (ValueError "Channel doesn't match up with the member's guild"),
           st3)).
Proof.
  intros Hguild Howner Hroles Hpermissions Hadmin Htruthy.
  pose proof (fetch_permissions_channel_stage client member guild guild_roles
                roles permissions channel st st1 st2 retry1 retry2
                Hguild Howner Hroles Hpermissions Hadmin Htruthy) as Hfetch.
  split.
  - intros found_channel Hfound. rewrite Hfound in Hfetch. rewrite Hfetch.
    now destruct (GuildChannel.guild_id found_channel =? Guild.id guild).
  - intros raw_channel retry3 st3 Hfound Hremote.
    rewrite Hfound, Hremote in Hfetch. rewrite Hfetch.
    now destruct (GuildChannel.guild_id raw_channel =? Guild.id guild).
Qed.

(** X15. When the channel has to be fetched (guild and roles are resolved,
    from the cache or fetched, the member is neither owner nor
    administrator, and neither the caller nor the cache gave a guild
    channel), a channel that is not a guild channel ends the call with the
    [AssertionError] of the assertion, and a failed fetch ends it with the
    error of the fetch; in both cases in the state the fetch left. *)
Theorem fetch_permissions_channel_fetch_fails
    (client : Client.t W) (member : Member.t) (guild : Guild.t)
    (guild_roles : option (gmap Z Role.t)) (roles : gmap Z Role.t)
    (permissions : Permissions) (channel : channel_ref)
    (st st1 st2 st3 : @state W) (retry1 retry2 retry3 : Backoff.t) :
  resolve_guild exponential client member st
  = (Returned (guild, guild_roles), retry1, st1) ->
  Guild.owner_id guild <> User.id (Member.user member) ->
  resolve_roles exponential client member guild_roles retry1 st1
  = (Returned roles, retry2, st2) ->
  _calculate_role_permissions roles member = Returned permissions ->
  Z.land permissions ADMINISTRATOR = 0 ->
  channel_ref_truthy channel = true ->
  cached_channel client channel = None ->
  (forall id,
     fetch_resource exponential retry2
       (Rest.fetch_channel (Client.rest client) (channel_ref_id channel)) st2
     = (Returned (IsDMChannel id), retry3, st3) ->
     fetch client member (Some channel) st
     = (Raised (AssertionError "Cannot perform operation on a DM channel."), st3))
  /\ (forall exc,
        fetch_resource exponential retry2
          (Rest.fetch_channel (Client.rest client) (channel_ref_id channel)) st2
        = (Raised exc, retry3, st3) ->
        fetch client member (Some channel) st = (Raised exc, st3)).
Proof.
  intros Hguild Howner Hroles Hpermissions Hadmin Htruthy Hfound.
  pose proof (fetch_permissions_channel_stage client member guild guild_roles
                roles permissions channel st st1 st2 retry1 retry2
                Hguild Howner Hroles Hpermissions Hadmin Htruthy) as Hfetch.
  rewrite Hfound in Hfetch.
  split.
  - intros id Hremote. now rewrite Hremote in Hfetch.
  - intros exc Hremote. now rewrite Hremote in Hfetch.
Qed.

(** X16. When the cache cannot give the guild, it is fetched; a failed
    fetch ends [fetch_permissions] with the error of the fetch in the state
    the fetch left: neither roles nor channel are looked at. *)
Theorem fetch_permissions_guild_fetch_fails
    (client : Client.t W) (member : Member.t) (channel : option channel_ref)
    (st st' : @state W) (retry' : Backoff.t) (exc : exn) :
  cached_guild client member = None ->
  fetch_resource exponential (Backoff.new 5 4)
    (Rest.fetch_guild (Client.rest client) (Member.guild_id member)) st
  = (Raised exc, retry', st') ->
  fetch client member channel st = (Raised exc, st').
Proof.
  intros Hcached Hremote. unfold fetch_permissions.
  unfold cached_guild in Hcached. now rewrite Hcached, Hremote.
Qed.

(** X17. A guild that had to be fetched brings its roles along: when the
    roles of the fetched guild are not empty, they are the role mapping,
    the cache is not asked for a role view and no roles are fetched, so
    that without channel the call is [calculate_permissions] on the fetched
    guild and its roles, in the state the fetch of the guild left. *)
Theorem fetch_permissions_roles_of_fetched_guild
    (client : Client.t W) (member : Member.t) (guild : Guild.t)
    (st st' : @state W) (retry' : Backoff.t) :
  cached_guild client member = None ->
  fetch_resource exponential (Backoff.new 5 4)
    (Rest.fetch_guild (Client.rest client) (Member.guild_id member)) st
  = (Returned guild, retry', st') ->
  Member.guild_id member = Guild.id guild ->
  Guild.roles guild <> ∅ ->
  fetch client member None st
  = (calculate member guild (Guild.roles guild) None, st').
Proof.
  intros Hcached Hremote Hmember Hroles. unfold fetch_permissions.
  unfold cached_guild in Hcached. rewrite Hcached, Hremote. cbn [and_then].
  unfold calculate_permissions. rewrite (proj2 (Z.eqb_eq _ _) Hmember). cbn [negb].
  destruct (Guild.owner_id guild =? User.id (Member.user member)); [reflexivity|].
  assert (Htruthy : mapping_truthy (Some (Guild.roles guild)) = true)
    by (cbn; now rewrite (bool_decide_eq_false_2 _ Hroles)).
  rewrite !Htruthy. cbn [and_then].
  destruct (_calculate_role_permissions (Guild.roles guild) member)
    as [permissions|exc]; [|reflexivity].
  now destruct (negb _).
Qed.

Lemma and_then_ext {A B : Type}
    (step : result A * Backoff.t * @state W)
    (rest rest' : A -> Backoff.t -> @state W -> result B * @state W) :
  (forall value retry st, rest value retry st = rest' value retry st) ->
  and_then step rest = and_then step rest'.
Proof.
  intros Hext. destruct step as [[[value|exc] retry] st]; [apply Hext|reflexivity].
Qed.

(** X18. A channel given as the integer zero is no channel: Python takes it
    for false, and [fetch_permissions] answers as it does without channel,
    resolving none. *)
Theorem fetch_permissions_zero_channel
    (client : Client.t W) (member : Member.t) (st : @state W) :
  fetch client member (Some (Snowflakeish 0)) st = fetch client member None st.
Proof.
  unfold fetch_permissions. apply and_then_ext. intros [guild roles] retry st1.
  destruct (Guild.owner_id guild =? User.id (Member.user member)); [reflexivity|].
  apply and_then_ext. intros roles' retry' st2.
  destruct (_calculate_role_permissions roles' member) as [permissions|exc];
    [|reflexivity].
  now destruct (negb _).
Qed.

End OrchestratorPaths.

(** ** Chained asynchronous iterators *)

Section AsyncChain.

Context {W A : Type}.
Variable body : A -> W -> W.

Lemma drain_chain_into (async_iterable : pull W A) (remaining : W -> pull W A) :
  drain body (chain_into async_iterable remaining)
  = one_after_another (drain body async_iterable)
      (fun w => drain body (remaining w)).
Proof.
  induction async_iterable as [w|exc w|value w rest IH]; cbn.
  - now destruct (drain body (remaining w)) as [[values exc] w'].
  - reflexivity.
  - rewrite IH. unfold one_after_another.
    destruct (drain body (rest (body value w))) as [[values [exc|]] w'];
      [reflexivity|].
    now destruct (drain body (remaining w')) as [[values' exc'] w''].
Qed.

(** X19. A consumer of [async_chain] receives the values of the iterables
    in the order of the iterables, each iterable being started in the state
    the previous one ended in; the first exception ends the chain, and the
    iterables after the failing one are never started.  In particular the
    chain of no iterable yields nothing, the chain of one iterable is that
    iterable, and the chain of two lists of iterables is the chain of the
    first followed by the chain of the second. *)
Theorem async_chain_in_order :
  (forall w, drain body (async_chain [] w) = ([], None, w))
  /\ (forall (async_iterable : W -> pull W A) (w : W),
        drain body (async_chain [async_iterable] w)
        = drain body (async_iterable w))
  /\ (forall (async_iterable : W -> pull W A) (iterable : list (W -> pull W A))
             (w : W),
        drain body (async_chain (async_iterable :: iterable) w)
        = one_after_another (drain body (async_iterable w))
            (fun w' => drain body (async_chain iterable w')))
  /\ (forall (iterable iterable' : list (W -> pull W A)) (w : W),
        drain body (async_chain (iterable ++ iterable') w)
        = one_after_another (drain body (async_chain iterable w))
            (fun w' => drain body (async_chain iterable' w'))).
Proof.
  assert (Hcons : forall (async_iterable : W -> pull W A) iterable w,
             drain body (async_chain (async_iterable :: iterable) w)
             = one_after_another (drain body (async_iterable w))
                 (fun w' => drain body (async_chain iterable w'))).
  { intros async_iterable iterable w. cbn [async_chain]. apply drain_chain_into. }
  split; [reflexivity|]. split; [|split; [exact Hcons|]].
  - intros async_iterable w. rewrite Hcons. unfold one_after_another.
    destruct (drain body (async_iterable w)) as [[values [exc|]] w'];
      [reflexivity|].
    cbn. now rewrite app_nil_r.
  - intros iterable iterable'.
    induction iterable as [|async_iterable iterable IH]; intros w.
    + cbn. now destruct (drain body (async_chain iterable' w)) as [[values exc] w'].
    + rewrite <- app_comm_cons, !Hcons. unfold one_after_another.
      destruct (drain body (async_iterable w)) as [[values [exc|]] w'];
        [reflexivity|].
      rewrite IH. unfold one_after_another.
      destruct (drain body (async_chain iterable w')) as [[values' [exc'|]] w''];
        [reflexivity|].
      destruct (drain body (async_chain iterable' w'')) as [[values'' exc''] w'''].
      now rewrite app_assoc.
Qed.

End AsyncChain.

(** Three sample iterables, the second of which raises after its value:
    the third is never pulled (each pull adds one to the state). *)
Lemma async_chain_sample :
  drain (fun _ w => w)
    (async_chain [sample_iterable [1; 2] None;
                  sample_iterable [3] (Some InternalServerError);
                  sample_iterable [4] None] 0%nat)
  = ([1; 2; 3], Some InternalServerError, 5%nat).
Proof. reflexivity. Qed.

(** ** The further properties on the sample data *)

Lemma sample_roles_not_empty : sample_roles <> ∅.
Proof.
  intros Hempty.
  apply (f_equal (fun roles : gmap Z Role.t => roles !! 5)) in Hempty.
  vm_compute in Hempty. discriminate Hempty.
Qed.

Lemma sample_role_ids_shuffled (role_id : Z) :
  role_id ∈ Member.role_ids sample_member
  <-> role_id ∈ Member.role_ids sample_member_shuffled.
Proof. cbn. rewrite !elem_of_cons, elem_of_nil. tauto. Qed.

Lemma sample_role_ids_fewer (role_id : Z) :
  role_id ∈ Member.role_ids sample_member_fewer_roles ->
  role_id ∈ Member.role_ids sample_member.
Proof. cbn. rewrite !elem_of_cons, elem_of_nil. tauto. Qed.

Lemma channel_overwrites_without_match_witness :
  (forall role_id,
     role_id ∈ Member.role_ids sample_member ->
     GuildChannel.permission_overwrites sample_foreign_channel !! role_id = None)
  /\ _calculate_channel_overwrites sample_flags sample_foreign_channel sample_member
       (Z.lor sample_VIEW_CHANNEL (Z.shiftl 1 33))
     = Z.land (Z.lor sample_VIEW_CHANNEL (Z.shiftl 1 33)) (everything sample_flags)
  /\ Z.land (Z.lor sample_VIEW_CHANNEL (Z.shiftl 1 33)) (everything sample_flags)
     = sample_VIEW_CHANNEL.
Proof.
  assert (Hroles : forall role_id,
             role_id ∈ Member.role_ids sample_member ->
             GuildChannel.permission_overwrites sample_foreign_channel !! role_id
             = None)
    by (intros role_id _; apply lookup_empty).
  split; [exact Hroles|]. split; [|reflexivity].
  exact (proj1 (channel_overwrites_without_match sample_flags
                  sample_foreign_channel sample_member
                  (Z.lor sample_VIEW_CHANNEL (Z.shiftl 1 33))
                  eq_refl Hroles eq_refl)).
Defined.

Lemma channel_overwrites_monotone_witness :
  subset sample_VIEW_CHANNEL (Z.lor sample_VIEW_CHANNEL sample_SEND_MESSAGES)
  /\ subset
       (_calculate_channel_overwrites sample_flags sample_channel sample_member
          sample_VIEW_CHANNEL)
       (_calculate_channel_overwrites sample_flags sample_channel sample_member
          (Z.lor sample_VIEW_CHANNEL sample_SEND_MESSAGES)).
Proof.
  assert (Hsubset : subset sample_VIEW_CHANNEL
                      (Z.lor sample_VIEW_CHANNEL sample_SEND_MESSAGES))
    by reflexivity.
  split; [exact Hsubset|].
  exact (channel_overwrites_monotone sample_flags sample_channel sample_member
           _ _ Hsubset).
Defined.

Lemma channel_overwrites_role_ids_as_set_witness :
  Member.user sample_member = Member.user sample_member_shuffled
  /\ Member.guild_id sample_member = Member.guild_id sample_member_shuffled
  /\ _calculate_channel_overwrites sample_flags sample_channel sample_member
       (Z.lor sample_VIEW_CHANNEL sample_SEND_MESSAGES)
     = _calculate_channel_overwrites sample_flags sample_channel
         sample_member_shuffled
         (Z.lor sample_VIEW_CHANNEL sample_SEND_MESSAGES).
Proof.
  split; [reflexivity|]. split; [reflexivity|].
  exact (channel_overwrites_role_ids_as_set sample_flags sample_channel
           sample_member sample_member_shuffled _ eq_refl eq_refl
           sample_role_ids_shuffled).
Defined.

Lemma role_permissions_role_ids_as_set_witness :
  Member.guild_id sample_member = Member.guild_id sample_member_shuffled
  /\ _calculate_role_permissions sample_roles sample_member
     = _calculate_role_permissions sample_roles sample_member_shuffled.
Proof.
  split; [reflexivity|].
  exact (role_permissions_role_ids_as_set sample_roles sample_member
           sample_member_shuffled eq_refl sample_role_ids_shuffled).
Defined.

Lemma role_permissions_monotone_witness :
  _calculate_role_permissions sample_roles sample_member_fewer_roles
  = Returned sample_VIEW_CHANNEL
  /\ _calculate_role_permissions sample_roles sample_member
     = Returned (Z.lor sample_VIEW_CHANNEL sample_SEND_MESSAGES)
  /\ subset sample_VIEW_CHANNEL (Z.lor sample_VIEW_CHANNEL sample_SEND_MESSAGES).
Proof.
  split; [reflexivity|]. split; [reflexivity|].
  exact (role_permissions_monotone sample_roles sample_member_fewer_roles
           sample_member _ _ eq_refl sample_role_ids_fewer eq_refl eq_refl).
Defined.

Lemma fetch_resource_first_attempt_decides_witness :
  retryable (fst (script_call [@Raised nat (RateLimitedError 6); Returned 7%nat]))
  = false
  /\ exists retry',
       fetch_resource sample_exponential
         (Backoff.mk 5 4 true 4 (Some 2%Q)) script_call
         {| remote := [Raised (RateLimitedError 6); Returned 7%nat]; trace := [] |}
       = (Raised (RateLimitedError 6), retry',
          {| remote := [Returned 7%nat]; trace := [Invoked] |})
       /\ Backoff.retries retry' = 0%nat.
Proof.
  split; [reflexivity|].
  exact (fetch_resource_first_attempt_decides sample_exponential script_call
           (Backoff.mk 5 4 true 4 (Some 2%Q))
           {| remote := [Raised (RateLimitedError 6); Returned 7%nat]; trace := [] |}
           eq_refl).
Defined.

Lemma fetch_permissions_cached_is_calculate_witness :
  cached_channel (sample_client sample_guild sample_roles)
    (GuildChannelObject sample_channel) = Some sample_channel
  /\ fetch_permissions sample_exponential sample_flags sample_ADMINISTRATOR
       (sample_client sample_guild sample_roles) sample_member
       (Some (GuildChannelObject sample_channel)) sample_idle
     = (calculate_permissions sample_flags sample_ADMINISTRATOR sample_member
          sample_guild sample_roles (Some sample_channel),
        sample_idle).
Proof.
  split; [reflexivity|].
  exact (proj2 (fetch_permissions_cached_is_calculate sample_exponential
                  sample_flags sample_ADMINISTRATOR
                  (sample_client sample_guild sample_roles)
                  (sample_cache sample_guild sample_roles)
                  sample_member sample_guild sample_idle
                  eq_refl eq_refl eq_refl sample_roles_not_empty)
           (GuildChannelObject sample_channel) sample_channel
           eq_refl eq_refl eq_refl).
Defined.

Lemma fetch_permissions_validates_channel_guild_witness :
  resolve_guild sample_exponential Scripted.client sample_member
    (sample_remote [Returned sample_guild] [Returned sample_raw_roles]
       [Returned (IsGuildChannel sample_foreign_channel)] [])
  = (Returned (sample_guild, Some (Guild.roles sample_guild)),
     Backoff.mk 5 4 true 0 None,
     sample_remote [] [Returned sample_raw_roles]
       [Returned (IsGuildChannel sample_foreign_channel)] [Invoked])
  /\ resolve_roles sample_exponential Scripted.client sample_member
       (Some (Guild.roles sample_guild)) (Backoff.mk 5 4 true 0 None)
       (sample_remote [] [Returned sample_raw_roles]
          [Returned (IsGuildChannel sample_foreign_channel)] [Invoked])
     = (Returned (roles_by_id sample_raw_roles), Backoff.mk 5 4 true 0 None,
        sample_remote [] []
          [Returned (IsGuildChannel sample_foreign_channel)] [Invoked; Invoked])
  /\ fetch_permissions sample_exponential sample_flags sample_ADMINISTRATOR
       Scripted.client sample_member (Some (Snowflakeish 8))
       (sample_remote [Returned sample_guild] [Returned sample_raw_roles]
          [Returned (IsGuildChannel sample_foreign_channel)] [])
     = (Raised (ValueError "Channel doesn't match up with the member's guild"),
        sample_remote [] [] [] [Invoked; Invoked; Invoked]).
Proof.
  assert (Howner : Guild.owner_id sample_guild <> User.id (Member.user sample_member))
    by discriminate.
  split; [reflexivity|]. split; [reflexivity|].
  exact (proj2 (fetch_permissions_validates_channel_guild sample_exponential
                  sample_flags sample_ADMINISTRATOR
                  Scripted.client sample_member sample_guild
                  (Some (Guild.roles sample_guild))
                  (roles_by_id sample_raw_roles)
                  (Z.lor sample_VIEW_CHANNEL sample_SEND_MESSAGES)
                  (Snowflakeish 8)
                  (sample_remote [Returned sample_guild] [Returned sample_raw_roles]
                     [Returned (IsGuildChannel sample_foreign_channel)] [])
                  (sample_remote [] [Returned sample_raw_roles]
                     [Returned (IsGuildChannel sample_foreign_channel)] [Invoked])
                  (sample_remote [] []
                     [Returned (IsGuildChannel sample_foreign_channel)]
                     [Invoked; Invoked])
                  (Backoff.mk 5 4 true 0 None) (Backoff.mk 5 4 true 0 None)
                  eq_refl Howner eq_refl eq_refl eq_refl eq_refl)
           sample_foreign_channel (Backoff.mk 5 4 true 0 None)
           (sample_remote [] [] [] [Invoked; Invoked; Invoked])
           eq_refl eq_refl).
Defined.

Lemma fetch_permissions_channel_fetch_fails_witness :
  resolve_guild sample_exponential Scripted.client sample_member
    (sample_remote [Returned sample_guild] [Returned sample_raw_roles]
       [Returned (IsDMChannel 8)] [])
  = (Returned (sample_guild, Some (Guild.roles sample_guild)),
     Backoff.mk 5 4 true 0 None,
     sample_remote [] [Returned sample_raw_roles]
       [Returned (IsDMChannel 8)] [Invoked])
  /\ resolve_roles sample_exponential Scripted.client sample_member
       (Some (Guild.roles sample_guild)) (Backoff.mk 5 4 true 0 None)
       (sample_remote [] [Returned sample_raw_roles]
          [Returned (IsDMChannel 8)] [Invoked])
     = (Returned (roles_by_id sample_raw_roles), Backoff.mk 5 4 true 0 None,
        sample_remote [] [] [Returned (IsDMChannel 8)] [Invoked; Invoked])
  /\ fetch_resource sample_exponential (Backoff.mk 5 4 true 0 None)
       (Rest.fetch_channel Scripted.rest 8)
       (sample_remote [] [] [Returned (IsDMChannel 8)] [Invoked; Invoked])
     = (Returned (IsDMChannel 8), Backoff.mk 5 4 true 0 None,
        sample_remote [] [] [] [Invoked; Invoked; Invoked])
  /\ fetch_permissions sample_exponential sample_flags sample_ADMINISTRATOR
       Scripted.client sample_member (Some (Snowflakeish 8))
       (sample_remote [Returned sample_guild] [Returned sample_raw_roles]
          [Returned (IsDMChannel 8)] [])
     = (Raised (AssertionError "Cannot perform operation on a DM channel."),
        sample_remote [] [] [] [Invoked; Invoked; Invoked]).
Proof.
  assert (Howner : Guild.owner_id sample_guild <> User.id (Member.user sample_member))
    by discriminate.
  split; [reflexivity|]. split; [reflexivity|]. split; [reflexivity|].
  exact (proj1 (fetch_permissions_channel_fetch_fails sample_exponential
                  sample_flags sample_ADMINISTRATOR
                  Scripted.client sample_member sample_guild
                  (Some (Guild.roles sample_guild))
                  (roles_by_id sample_raw_roles)
                  (Z.lor sample_VIEW_CHANNEL sample_SEND_MESSAGES)
                  (Snowflakeish 8)
                  (sample_remote [Returned sample_guild] [Returned sample_raw_roles]
                     [Returned (IsDMChannel 8)] [])
                  (sample_remote [] [Returned sample_raw_roles]
                     [Returned (IsDMChannel 8)] [Invoked])
                  (sample_remote [] [] [Returned (IsDMChannel 8)] [Invoked; Invoked])
                  (sample_remote [] [] [] [Invoked; Invoked; Invoked])
                  (Backoff.mk 5 4 true 0 None) (Backoff.mk 5 4 true 0 None)
                  (Backoff.mk 5 4 true 0 None)
                  eq_refl Howner eq_refl eq_refl eq_refl eq_refl eq_refl)
           8 eq_refl).
Defined.

Lemma fetch_permissions_guild_fetch_fails_witness :
  cached_guild Scripted.client sample_member = None
  /\ fetch_permissions sample_exponential sample_flags sample_ADMINISTRATOR
       Scripted.client sample_member (Some (Snowflakeish 8))
       (sample_answers (Raised (OtherError 4)) (Returned (IsDMChannel 8)))
     = (Raised (OtherError 4), sample_after_guild (Returned (IsDMChannel 8))).
Proof.
  split; [reflexivity|].
  exact (fetch_permissions_guild_fetch_fails sample_exponential sample_flags
           sample_ADMINISTRATOR Scripted.client sample_member
           (Some (Snowflakeish 8))
           (sample_answers (Raised (OtherError 4)) (Returned (IsDMChannel 8)))
           (sample_after_guild (Returned (IsDMChannel 8)))
           (Backoff.mk 5 4 true 0 None) (OtherError 4) eq_refl eq_refl).
Defined.

Lemma fetch_permissions_roles_of_fetched_guild_witness :
  cached_guild Scripted.client sample_member = None
  /\ Member.guild_id sample_member = Guild.id sample_fetched_guild
  /\ fetch_permissions sample_exponential sample_flags sample_ADMINISTRATOR
       Scripted.client sample_member None
       (sample_answers (Returned sample_fetched_guild) (Returned (IsDMChannel 8)))
     = (calculate_permissions sample_flags sample_ADMINISTRATOR sample_member
          sample_fetched_guild sample_roles None,
        sample_after_guild (Returned (IsDMChannel 8))).
Proof.
  split; [reflexivity|]. split; [reflexivity|].
  exact (fetch_permissions_roles_of_fetched_guild sample_exponential sample_flags
           sample_ADMINISTRATOR Scripted.client sample_member sample_fetched_guild
           (sample_answers (Returned sample_fetched_guild) (Returned (IsDMChannel 8)))
           (sample_after_guild (Returned (IsDMChannel 8)))
           (Backoff.mk 5 4 true 0 None)
           eq_refl eq_refl eq_refl sample_roles_not_empty).
Defined.

(** ** What a call of [fetch_permissions] costs *)

Lemma effort_refl {W : Type} (st : @state W) : effort 0 0 st st.
Proof. exists []. now rewrite app_nil_r. Qed.

Lemma effort_trans {W : Type} (n n' m m' : nat) (st st' st'' : @state W) :
  effort n m st st' -> effort n' m' st' st'' -> effort (n + n') (m + m') st st''.
Proof.
  intros (events & Htrace & Hinv & Hsleeps) (events' & Htrace' & Hinv' & Hsleeps').
  exists (events ++ events').
  rewrite Htrace', Htrace, <- app_assoc, invocations_app, sleeps_app, length_app.
  repeat split; lia.
Qed.

Lemma effort_weaken {W : Type} (n n' m m' : nat) (st st' : @state W) :
  (n <= n')%nat -> (m <= m')%nat -> effort n m st st' -> effort n' m' st st'.
Proof.
  intros Hn Hm (events & Htrace & Hinv & Hsleeps).
  exists events. repeat split; [exact Htrace|lia|lia].
Qed.

Lemma fetch_resource_effort {W R : Type} (exponential : nat -> Q)
    (call : W -> result R * W) (retry : Backoff.t) (st : @state W) :
  effort (Backoff.max_retries retry + 2) (Backoff.max_retries retry) st
    (snd (fetch_resource exponential retry call st))
  /\ Backoff.max_retries (snd (fst (fetch_resource exponential retry call st)))
     = Backoff.max_retries retry.
Proof.
  destruct (first_not_absorbed
              (fun i => retryable (fst (nth_call call i (remote st))))
              (S (Backoff.max_retries retry)))
    as (k & Hk & Hbefore & Hat).
  destruct (fetch_resource_outcome exponential call k retry st Hk Hbefore Hat)
    as (retry' & events & Hfetch & Hinv & Hmax & _).
  destruct (loop_sleeps exponential call (S (Backoff.max_retries retry))
              (Backoff.reset retry) st)
    as (events' & Htrace & Hlength & _).
  { unfold Backoff.budget. cbn. lia. }
  { discriminate. }
  fold (fetch_resource exponential retry call st) in Htrace.
  rewrite Hfetch in Htrace |- *. cbn in Htrace, Hlength |- *.
  apply app_inv_head in Htrace. subst events'.
  split; [|exact Hmax]. exists events. repeat split; lia.
Qed.

Section OrchestratorEffort.

Context {W : Type}.
Variable exponential : nat -> Q.
Variable Permissions_members : list Permissions.
Variable ADMINISTRATOR : Permissions.

Lemma one_fetch_none {A : Type} (value : result A) (retry : Backoff.t)
    (st : @state W) :
  Backoff.max_retries retry = 4%nat -> one_fetch st (value, retry, st).
Proof.
  intros Hmax. split; [|exact Hmax].
  apply (effort_weaken 0 6 0 4); [lia|lia|apply effort_refl].
Qed.

Lemma one_fetch_remote {A B : Type} (call : W -> result A * W)
    (retry : Backoff.t) (st : @state W)
    (k : result A -> result B) :
  Backoff.max_retries retry = 4%nat ->
  one_fetch st
    (let '(outcome, retry', st') := fetch_resource exponential retry call st in
     (k outcome, retry', st')).
Proof.
  intros Hmax.
  destruct (fetch_resource_effort exponential call retry st) as [Heffort Hmax'].
  destruct (fetch_resource exponential retry call st) as [[outcome retry'] st'].
  cbn [snd fst] in *. rewrite Hmax in *. split; [exact Heffort|exact Hmax'].
Qed.

Lemma and_then_effort {A B : Type} (n m : nat) (st : @state W)
    (step : result A * Backoff.t * @state W)
    (rest : A -> Backoff.t -> @state W -> result B * @state W) :
  one_fetch st step ->
  (forall value retry st',
     Backoff.max_retries retry = 4%nat -> effort n m st' (snd (rest value retry st'))) ->
  effort (6 + n) (4 + m) st (snd (and_then step rest)).
Proof.
  intros [Heffort Hmax] Hrest.
  destruct step as [[[value|exc] retry] st']; cbn [and_then snd fst] in *.
  - eapply effort_trans; [exact Heffort|]. now apply Hrest.
  - apply (effort_weaken 6 (6 + n) 4 (4 + m)); [lia|lia|exact Heffort].
Qed.

Ltac one_fetch_of_fetch_resource Hmax :=
  match goal with
  | |- one_fetch ?st ?step =>
      match step with
      | context [fetch_resource ?e ?retry ?call st] =>
          let Heffort := fresh "Heffort" in
          let Hmax' := fresh "Hmax" in
          destruct (fetch_resource_effort e call retry st) as [Heffort Hmax'];
          destruct (fetch_resource e retry call st) as [[[value|exc] retry'] st'];
          cbn [snd fst] in Heffort, Hmax'; rewrite Hmax in Heffort, Hmax';
          try (destruct value);
          (split; [exact Heffort|exact Hmax'])
      end
  end.

(** X20. One call of [fetch_permissions] awaits the remote authority at
    most eighteen times and sleeps at most twelve times: three
    resolutions, each with one attempt, four retries that sleep first, and
    one last attempt. *)
Theorem fetch_permissions_effort_bounded
    (client : Client.t W) (member : Member.t) (channel : option channel_ref)
    (st : @state W) :
  effort 18 12 st
    (snd (fetch_permissions exponential Permissions_members ADMINISTRATOR
            client member channel st)).
Proof.
  unfold fetch_permissions.
  apply (and_then_effort 12 8).
  - (* the guild *)
    destruct (match Client.cache client with
              | Some cache => Cache.get_guild cache (Member.guild_id member)
              | None => None
              end) as [guild|].
    + now apply one_fetch_none.
    + assert (Hmax : Backoff.max_retries (Backoff.new 5 4) = 4%nat) by reflexivity.
      one_fetch_of_fetch_resource Hmax.
  - intros [guild roles] retry st1 Hmax.
    destruct (Guild.owner_id guild =? User.id (Member.user member)).
    { apply (effort_weaken 0 12 0 8); [lia|lia|apply effort_refl]. }
    apply (and_then_effort 6 4).
    + (* the roles *)
      match goal with
      | |- one_fetch _ (match ?resolved with _ => _ end) =>
          destruct resolved as [roles'|]
      end.
      * destruct (mapping_truthy _).
        -- now apply one_fetch_none.
        -- one_fetch_of_fetch_resource Hmax.
      * one_fetch_of_fetch_resource Hmax.
    + intros roles' retry2 st2 Hmax2.
      destruct (_calculate_role_permissions roles' member) as [permissions|exc];
        [|apply (effort_weaken 0 6 0 4); [lia|lia|apply effort_refl]].
      destruct (negb (Z.land permissions ADMINISTRATOR =? 0));
        [apply (effort_weaken 0 6 0 4); [lia|lia|apply effort_refl]|].
      destruct channel as [channel|];
        [|apply (effort_weaken 0 6 0 4); [lia|lia|apply effort_refl]].
      destruct (negb (channel_ref_truthy channel));
        [apply (effort_weaken 0 6 0 4); [lia|lia|apply effort_refl]|].
      apply (and_then_effort 0 0).
      * (* the channel *)
        match goal with
        | |- one_fetch _ (match ?found with _ => _ end) =>
            destruct found as [found_channel|]
        end.
        -- now apply one_fetch_none.
        -- one_fetch_of_fetch_resource Hmax2.
      * intros found_channel retry3 st3 _.
        destruct (negb _); apply effort_refl.
Qed.

End OrchestratorEffort.
